(** * Advanced-todo: the local store and the optimistic mutation handlers

    A shallow embedding of
    - [store/todoStore.js]   ([createTodoStore]: subscribe / getSnapshot / updateTodos),
    - [api/todoApi.js]       ([todoApi]: the simulated remote service),
    - [App.jsx]              (the four mutation handlers and [handleClearAll]),
    - [components/AddTodoForm.jsx] ([handleSubmit]),
    together with the properties the specification states about them.

    JavaScript arrays are immutable values here (the program never updates
    an array in place) that carry the identity of their allocation, so that
    "the same reference" and "deep-equal" are different statements.
    Effects (allocation, [localStorage], the clock, the console and the
    invocation of listeners) are threaded through a state monad. *)

From Stdlib Require Import Ascii.
From stdpp Require Import gmap strings list pretty.

Local Open Scope string_scope.
Local Open Scope list_scope.

(** ** Data model *)

(** A to-do item.  [createdAt] is absent on speculative items. *)
Record Todo := mkTodo {
  todo_id : string;
  todo_text : string;
  todo_completed : bool;
  todo_createdAt : option string;
}.

(** A JavaScript array of items: the identity of the allocation and the
    elements.  [===] compares [arr_ref]; deep equality compares [elems]. *)
Record JsArray := mkArray {
  arr_ref : positive;
  elems : list Todo;
}.

Definition same_reference (a b : JsArray) : Prop := arr_ref a = arr_ref b.
Definition deep_equal (a b : JsArray) : Prop := elems a = elems b.

(** An [Error] object; only its [message] is ever read. *)
Record JsError := mkError { err_message : string }.

(** How a call completes: normally with a value, or by throwing (for an
    awaited promise: fulfilled, or rejected). *)
Inductive Completion (A : Type) : Type :=
| Normal (a : A)
| Throw (e : JsError).
Arguments Normal {A} a.
Arguments Throw {A} e.

Definition is_throw {A} (c : Completion A) : bool :=
  match c with Normal _ => false | Throw _ => true end.

Inductive ConsoleLine :=
| console_log (msg : string)
| console_error (msg : string).

(** The identity of a listener callback. *)
Definition Listener := positive.

(** ** The platform *)

(** Built-ins of the JavaScript runtime that the program calls and whose
    definition is not part of the repository.  [JSON_parse] returns [None]
    where [JSON.parse] throws a [SyntaxError]; the embedding is typed, so it
    covers stored texts that denote item lists. *)
Class Runtime := {
  JSON_stringify : list Todo → string;
  JSON_parse : string → option (list Todo);
  String_trim : string → string;
  Date_toISOString : N → string;
}.

(** What the simulated remote service can observe and change: the clock
    ([Date.now()], advanced by timers) and the console. *)
Record Env := mkEnv {
  clock : N;
  console : list ConsoleLine;
}.

(** The rest of the world outside the store's closure. *)
Record World := mkWorld {
  env : Env;
  next_ref : positive;                  (* allocator of array identities *)
  localStorage : gmap string string;
  getItem_throws : bool;                (* storage access denied on read *)
  setItem_throws : bool;                (* quota exceeded / access denied on write *)
  calls : list Listener;                (* listener invocations, oldest first *)
}.

Definition with_env (e : Env) (w : World) : World :=
  mkWorld e (next_ref w) (localStorage w) (getItem_throws w) (setItem_throws w) (calls w).
Definition with_next_ref (r : positive) (w : World) : World :=
  mkWorld (env w) r (localStorage w) (getItem_throws w) (setItem_throws w) (calls w).
Definition with_localStorage (ls : gmap string string) (w : World) : World :=
  mkWorld (env w) (next_ref w) ls (getItem_throws w) (setItem_throws w) (calls w).
Definition with_calls (cs : list Listener) (w : World) : World :=
  mkWorld (env w) (next_ref w) (localStorage w) (getItem_throws w) (setItem_throws w) cs.

(** ** A state monad *)

Definition State (S A : Type) : Type := S → A * S.

Definition ret {S A} (a : A) : State S A := λ s, (a, s).
Definition bind {S A B} (m : State S A) (k : A → State S B) : State S B :=
  λ s, let (a, s') := m s in k a s'.

Notation "'let!' x := m 'in' k" := (bind m (λ x, k))
  (at level 10, x name, m at level 100, k at level 200, only parsing).
Notation "'do!' m 'in' k" := (bind m (λ _, k))
  (at level 10, m at level 100, k at level 200, only parsing).

(** Computations of the program run on the world, those of the remote
    service on [Env] alone. *)
Abbreviation M := (State World).
Abbreviation R := (State Env).

Definition lift_env {A} (r : R A) : M A :=
  λ w, let (a, e') := r (env w) in (a, with_env e' w).

(** [[...]], [map], [filter], [[...xs]] and [JSON.parse] all allocate. *)
Definition new_array (l : list Todo) : M JsArray :=
  λ w, (mkArray (next_ref w) l, with_next_ref (Pos.succ (next_ref w)) w).

Definition localStorage_getItem (key : string) : M (Completion (option string)) :=
  λ w, if getItem_throws w
       then (Throw (mkError "SecurityError"), w)
       else (Normal (localStorage w !! key), w).

Definition localStorage_setItem (key value : string) : M (Completion unit) :=
  λ w, if setItem_throws w
       then (Throw (mkError "QuotaExceededError"), w)
       else (Normal tt, with_localStorage (<[key := value]> (localStorage w)) w).

Definition console_write (l : ConsoleLine) : R unit :=
  λ e, (tt, mkEnv (clock e) (console e ++ [l])).

Definition Date_now : R N := λ e, (clock e, e).

(** [Number.prototype.toString] on a non-negative integer (a timestamp). *)
Definition Number_toString (n : N) : string := pretty n.

(** Calling a listener: the callback registered by the view only schedules
    a render; its invocation is recorded. *)
Definition call_listener (l : Listener) : M unit :=
  λ w, (tt, with_calls (calls w ++ [l]) w).

Fixpoint forEach (ls : list Listener) : M unit :=
  match ls with
  | [] => ret tt
  | l :: ls' => do! call_listener l in forEach ls'
  end.

(** ** store/todoStore.js *)

(** The private state of the closure returned by [createTodoStore]. *)
Record Store := mkStore {
  listeners : gset Listener;
  todos : JsArray;
}.

Section store.
Context {RT : Runtime}.

Definition createTodoStore : M Store :=
  let! todos0 := new_array [] in
  let! stored := localStorage_getItem "todos" in
  match stored with
  | Throw _ =>
      let! t := new_array [] in ret (mkStore ∅ t)
  | Normal None | Normal (Some EmptyString) =>
      let! t := new_array [] in ret (mkStore ∅ t)
  | Normal (Some s) =>
      match JSON_parse s with
      | Some l => let! t := new_array l in ret (mkStore ∅ t)
      | None => let! t := new_array [] in ret (mkStore ∅ t)
      end
  end.

Definition subscribe (listener : Listener) (s : Store) : Store :=
  mkStore ({[listener]} ∪ listeners s) (todos s).

(** The function [subscribe] returns. *)
Definition unsubscribe (listener : Listener) (s : Store) : Store :=
  mkStore (listeners s ∖ {[listener]}) (todos s).

Definition getSnapshot (s : Store) : JsArray := todos s.

Definition updateTodos (newTodos : JsArray) (s : Store) : M Store :=
  let s' := mkStore (listeners s) newTodos in
  let! r := localStorage_setItem "todos" (JSON_stringify (elems (todos s'))) in
  do! match r with
      | Normal _ => ret tt
      | Throw _ => lift_env (console_write (console_error "Failed to persist:"))
      end in
  do! forEach (elements (listeners s')) in
  ret s'.
End store.

(** ** api/todoApi.js *)

(** [await delay(ms)]: the timer fires once [ms] milliseconds have passed.
    A remote call is run, timer included, when it settles: the clock then
    reads [ms] later than at the event before, which for calls that overlap
    is later than [ms] after the call was issued (a timer may fire late,
    never early).  Only the timestamps in ids and [createdAt] see this. *)
Definition delay (ms : N) : R unit :=
  λ e, (tt, mkEnv (clock e + ms) (console e)).

(** The interface of the remote service the handlers call. *)
Record Api := mkApi {
  addTodo : string → R (Completion Todo);
  toggleTodo : string → R (Completion string);
  deleteTodo : string → R (Completion string);
  updateTodo : string → string → R (Completion (string * string));
}.

Section api.
Context {RT : Runtime}.

Definition todoApi : Api := {|
  addTodo text :=
    do! delay 1500 in
    let! now := Date_now in
    let! now' := Date_now in
    let newTodo := mkTodo (Number_toString now) text false
                          (Some (Date_toISOString now')) in
    do! console_write (console_log "✅ API: Todo added") in
    ret (Normal newTodo);
  toggleTodo id :=
    do! delay 800 in
    do! console_write (console_log "✅ API: Todo toggled") in
    ret (Normal id);
  deleteTodo id :=
    do! delay 1000 in
    do! console_write (console_log "✅ API: Todo deleted") in
    ret (Normal id);
  updateTodo id text :=
    do! delay 1000 in
    do! console_write (console_log "✅ API: Todo updated") in
    ret (Normal (id, text));
|}.
End api.

(** ** App.jsx *)

Record Toast := mkToast {
  toast_message : string;
  toast_type : string;
}.

(** A handler suspended at its [await]: what its continuation closes over. *)
Inductive Pending :=
| AddPending (storedTodos : JsArray) (tempTodo : Todo) (text : string)
| TogglePending (original : JsArray) (id : string)
| DeletePending (original : JsArray) (id : string)
| UpdatePending (original : JsArray) (id newText : string).

(** The state of the mounted [App] component and of the module-level
    [todoStore] it uses. *)
Record App := mkApp {
  todoStore : Store;
  toast : option Toast;
  inflight : list Pending;       (* remote calls issued and not yet settled *)
  uncaught : list JsError;       (* errors rethrown out of a transition *)
}.

Definition with_todoStore (s : Store) (a : App) : App :=
  mkApp s (toast a) (inflight a) (uncaught a).
Definition await (p : Pending) (a : App) : App :=
  mkApp (todoStore a) (toast a) (inflight a ++ [p]) (uncaught a).
Definition rethrow (e : JsError) (a : App) : App :=
  mkApp (todoStore a) (toast a) (inflight a) (uncaught a ++ [e]).

(** [showToast(message, type = 'success')]. *)
Definition showToast (message : string) (type : string) (a : App) : App :=
  mkApp (todoStore a) (Some (mkToast message type)) (inflight a) (uncaught a).

Definition toggle_completed (id : string) (todo : Todo) : Todo :=
  if String.eqb (todo_id todo) id
  then mkTodo (todo_id todo) (todo_text todo) (negb (todo_completed todo))
              (todo_createdAt todo)
  else todo.

Definition replace_text (id newText : string) (todo : Todo) : Todo :=
  if String.eqb (todo_id todo) id
  then mkTodo (todo_id todo) newText (todo_completed todo) (todo_createdAt todo)
  else todo.

Definition id_differs (id : string) (todo : Todo) : bool :=
  negb (String.eqb (todo_id todo) id).

Section app.
Context {RT : Runtime}.

Definition write_store (arr : JsArray) (a : App) : M App :=
  let! s := updateTodos arr (todoStore a) in
  ret (with_todoStore s a).

(** *** Add: up to the [await], and from it on.  [storedTodos] is the
    snapshot the render that created the handler read from the store. *)
Definition handleAddTodo (storedTodos : JsArray) (text : string) (a : App) : M App :=
  let! now := lift_env Date_now in
  let tempTodo := mkTodo ("temp-" +:+ Number_toString now) text false None in
  ret (await (AddPending storedTodos tempTodo text) a).

Definition handleAddTodo_settled (storedTodos : JsArray)
    (c : Completion Todo) (a : App) : M App :=
  match c with
  | Normal newTodo =>
      let! arr := new_array (elems storedTodos ++ [newTodo]) in
      let! a := write_store arr a in
      ret (showToast "Todo added successfully" "success" a)
  | Throw error =>
      ret (rethrow error (showToast (err_message error) "error" a))
  end.

(** *** Toggle *)
Definition handleToggleTodo (storedTodos : JsArray) (id : string) (a : App) : M App :=
  let! original := new_array (elems storedTodos) in
  let! updated := new_array (map (toggle_completed id) (elems storedTodos)) in
  let! a := write_store updated a in
  ret (await (TogglePending original id) a).

Definition handleToggleTodo_settled (original : JsArray)
    (c : Completion string) (a : App) : M App :=
  match c with
  | Normal _ => ret a
  | Throw error =>
      let! a := write_store original a in
      ret (showToast "Failed to toggle todo" "error" a)
  end.

(** *** Delete *)
Definition handleDeleteTodo (storedTodos : JsArray) (id : string) (a : App) : M App :=
  let! original := new_array (elems storedTodos) in
  let! updated := new_array (List.filter (id_differs id) (elems storedTodos)) in
  let! a := write_store updated a in
  ret (await (DeletePending original id) a).

Definition handleDeleteTodo_settled (original : JsArray)
    (c : Completion string) (a : App) : M App :=
  match c with
  | Normal _ => ret (showToast "Todo deleted" "success" a)
  | Throw error =>
      let! a := write_store original a in
      ret (showToast "Failed to delete todo" "error" a)
  end.

(** *** Update *)
Definition handleUpdateTodo (storedTodos : JsArray) (id newText : string)
    (a : App) : M App :=
  let! original := new_array (elems storedTodos) in
  let! updated := new_array (map (replace_text id newText) (elems storedTodos)) in
  let! a := write_store updated a in
  ret (await (UpdatePending original id newText) a).

Definition handleUpdateTodo_settled (original : JsArray)
    (c : Completion (string * string)) (a : App) : M App :=
  match c with
  | Normal _ => ret (showToast "Todo updated" "success" a)
  | Throw error =>
      let! a := write_store original a in
      ret (showToast "Failed to update todo" "error" a)
  end.

(** *** Clear all; [confirmed] is what [window.confirm] answered. *)
Definition handleClearAll (confirmed : bool) (a : App) : M App :=
  if confirmed then
    let! arr := new_array [] in
    let! a := write_store arr a in
    ret (showToast "All todos cleared" "success" a)
  else ret a.

(** *** The event loop.  Every event handler belongs to the latest
    render, whose [storedTodos] is the store's current snapshot
    ([useSyncExternalStore] re-renders synchronously on every write);
    a suspended continuation keeps the [storedTodos] of its own render. *)
Inductive Event :=
| EvAdd (text : string)
| EvToggle (id : string)
| EvDelete (id : string)
| EvUpdate (id newText : string)
| EvClearAll (confirmed : bool)
| EvSettle (n : nat).            (* the n-th remote call in flight completes *)

Variable api : Api.

Definition settle (n : nat) (a : App) : M App :=
  match inflight a !! n with
  | None => ret a
  | Some p =>
      let a := mkApp (todoStore a) (toast a) (delete n (inflight a)) (uncaught a) in
      match p with
      | AddPending storedTodos _ text =>
          let! c := lift_env (addTodo api text) in
          handleAddTodo_settled storedTodos c a
      | TogglePending original id =>
          let! c := lift_env (toggleTodo api id) in
          handleToggleTodo_settled original c a
      | DeletePending original id =>
          let! c := lift_env (deleteTodo api id) in
          handleDeleteTodo_settled original c a
      | UpdatePending original id newText =>
          let! c := lift_env (updateTodo api id newText) in
          handleUpdateTodo_settled original c a
      end
  end.

Definition dispatch (ev : Event) (a : App) : M App :=
  let storedTodos := getSnapshot (todoStore a) in
  match ev with
  | EvAdd text => handleAddTodo storedTodos text a
  | EvToggle id => handleToggleTodo storedTodos id a
  | EvDelete id => handleDeleteTodo storedTodos id a
  | EvUpdate id newText => handleUpdateTodo storedTodos id newText a
  | EvClearAll confirmed => handleClearAll confirmed a
  | EvSettle n => settle n a
  end.

Fixpoint run (evs : list Event) (a : App) : M App :=
  match evs with
  | [] => ret a
  | ev :: evs' => let! a := dispatch ev a in run evs' a
  end.

(** What the list renders: [useOptimistic] appends the speculative item
    of every add still in flight to the stored list. *)
Definition optimisticTodos (a : App) : list Todo :=
  elems (getSnapshot (todoStore a)) ++
  omap (λ p, match p with AddPending _ tempTodo _ => Some tempTodo | _ => None end)
       (inflight a).
End app.

(** [createTodoStore()] at module load, then the first render. *)
Definition mount `{Runtime} : M App :=
  let! s := createTodoStore in
  ret (mkApp s None [] []).

(** ** components/AddTodoForm.jsx *)

Record Form := mkForm {
  input : string;
  error : option string;
}.

Section form.
Context {RT : Runtime} {T : Type}.

(** [onSubmit] is the prop the parent passes; [T] is the parent's state. *)
Variable onSubmit : string → T → M (Completion unit * T).

Definition handleSubmit (f : Form) (t : T) : M (Form * T) :=
  let text := String_trim (input f) in
  if String.eqb text EmptyString then
    ret (mkForm (input f) (Some "Please enter a todo"), t)
  else
    let originalInput := input f in
    let! r := onSubmit text t in
    match r with
    | (Normal _, t') => ret (mkForm EmptyString None, t')
    | (Throw err, t') => ret (mkForm originalInput (Some (err_message err)), t')
    end.
End form.

(** The form as [App] mounts it: [onSubmit={handleAddTodo}]. *)
Definition submit `{Runtime} (f : Form) (a : App) : M (Form * App) :=
  handleSubmit
    (λ text a, let! a := handleAddTodo (getSnapshot (todoStore a)) text a in
               ret (Normal tt, a))
    f a.

(** ** A reference runtime

    An executable instance of [Runtime], used to run the program on
    concrete inputs: JSON restricted to byte strings (escapes beyond
    [\u00ff] are rejected), [trim] on ASCII white space, and
    [toISOString] on the proleptic Gregorian calendar.  A text that is
    valid JSON but does not denote a list of items is rejected like a
    syntax error. *)
Module Reference.

#[local] Unset Elimination Schemes.
Inductive Json :=
| JNull
| JBool (b : bool)
| JNum (digits : string)
| JStr (s : string)
| JArr (l : list Json)
| JObj (members : list (string * Json)).
#[local] Set Elimination Schemes.

Definition code (c : ascii) : N := N_of_ascii c.
Definition chr (n : N) : string := String (ascii_of_N n) EmptyString.

Definition dquote : string := chr 34.
Definition backslash : string := chr 92.

Definition hex_digit (n : N) : string :=
  chr (if (n <? 10)%N then 48 + n else 87 + n)%N.

Definition hex_value (c : ascii) : option N :=
  let n := code c in
  if ((48 <=? n) && (n <=? 57))%N then Some (n - 48)%N
  else if ((97 <=? n) && (n <=? 102))%N then Some (n - 87)%N
  else if ((65 <=? n) && (n <=? 70))%N then Some (n - 55)%N
  else None.

Definition escape_char (c : ascii) : string :=
  let n := code c in
  if (n =? 34)%N then backslash +:+ dquote
  else if (n =? 92)%N then backslash +:+ backslash
  else if (n =? 8)%N then backslash +:+ "b"
  else if (n =? 9)%N then backslash +:+ "t"
  else if (n =? 10)%N then backslash +:+ "n"
  else if (n =? 12)%N then backslash +:+ "f"
  else if (n =? 13)%N then backslash +:+ "r"
  else if (n <? 32)%N then backslash +:+ "u00" +:+ hex_digit (n / 16) +:+ hex_digit (n mod 16)
  else String c EmptyString.

Fixpoint escape (s : string) : string :=
  match s with
  | EmptyString => EmptyString
  | String c s' => escape_char c +:+ escape s'
  end.

Definition quote (s : string) : string := dquote +:+ escape s +:+ dquote.

Definition stringify_todo (t : Todo) : string :=
  "{" +:+ quote "id" +:+ ":" +:+ quote (todo_id t) +:+ "," +:+
  quote "text" +:+ ":" +:+ quote (todo_text t) +:+ "," +:+
  quote "completed" +:+ ":" +:+ (if todo_completed t then "true" else "false") +:+
  match todo_createdAt t with
  | Some d => "," +:+ quote "createdAt" +:+ ":" +:+ quote d
  | None => EmptyString
  end +:+ "}".

Fixpoint join (sep : string) (l : list string) : string :=
  match l with
  | [] => EmptyString
  | [x] => x
  | x :: l' => x +:+ sep +:+ join sep l'
  end.

Definition stringify (l : list Todo) : string :=
  "[" +:+ join "," (map stringify_todo l) +:+ "]".

Definition is_ws (c : ascii) : bool :=
  let n := code c in
  ((n =? 32) || (n =? 9) || (n =? 10) || (n =? 13))%N.

Fixpoint skip_ws (s : string) : string :=
  match s with
  | String c s' => if is_ws c then skip_ws s' else s
  | EmptyString => EmptyString
  end.

(** The characters after an opening quote, up to the closing one. *)
Fixpoint parse_chars (s : string) (acc : string) : option (string * string) :=
  match s with
  | EmptyString => None
  | String c s' =>
      let n := code c in
      if (n =? 34)%N then Some (String.rev acc, s')
      else if (n <? 32)%N then None
      else if (n =? 92)%N then
        match s' with
        | String e s'' =>
            let plain (k : N) := parse_chars s'' (String (ascii_of_N k) acc) in
            match code e with
            | 34 => plain 34 | 92 => plain 92 | 47 => plain 47
            | 98 => plain 8 | 102 => plain 12 | 110 => plain 10
            | 114 => plain 13 | 116 => plain 9
            | 117 =>
                match s'' with
                | String h1 (String h2 (String h3 (String h4 rest))) =>
                    match hex_value h1, hex_value h2, hex_value h3, hex_value h4 with
                    | Some 0, Some 0, Some a, Some b =>
                        parse_chars rest (String (ascii_of_N (16 * a + b)) acc)
                    | _, _, _, _ => None
                    end
                | _ => None
                end
            | _ => None
            end%N
        | EmptyString => None
        end
      else parse_chars s' (String c acc)
  end.

Definition is_num_char (c : ascii) : bool :=
  let n := code c in
  (((48 <=? n) && (n <=? 57)) || (n =? 45) || (n =? 43) || (n =? 46)
   || (n =? 101) || (n =? 69))%N.

Fixpoint span_num (s : string) (acc : string) : string * string :=
  match s with
  | String c s' => if is_num_char c then span_num s' (String c acc) else (String.rev acc, s)
  | EmptyString => (String.rev acc, EmptyString)
  end.

Definition literal (lit : string) (v : Json) (s : string) : option (Json * string) :=
  if String.prefix lit s
  then Some (v, String.substring (String.length lit) (String.length s) s)
  else None.

Fixpoint parse_value (fuel : nat) (s : string) : option (Json * string) :=
  match fuel with
  | O => None
  | S fuel =>
      match skip_ws s with
      | EmptyString => None
      | String c r as s0 =>
          match code c with
          | 34 => '(str, r') ← parse_chars r EmptyString; Some (JStr str, r')
          | 91 =>
              match skip_ws r with
              | String "]" r' => Some (JArr [], r')
              | _ => parse_elements fuel r []
              end
          | 123 =>
              match skip_ws r with
              | String "}" r' => Some (JObj [], r')
              | _ => parse_members fuel r []
              end
          | 116 => literal "true" (JBool true) s0
          | 102 => literal "false" (JBool false) s0
          | 110 => literal "null" JNull s0
          | _ =>
              if is_num_char c
              then let '(d, r') := span_num s0 EmptyString in Some (JNum d, r')
              else None
          end%N
      end
  end
with parse_elements (fuel : nat) (s : string) (acc : list Json)
    : option (Json * string) :=
  match fuel with
  | O => None
  | S fuel =>
      '(v, r) ← parse_value fuel s;
      match skip_ws r with
      | String "," r' => parse_elements fuel r' (v :: acc)
      | String "]" r' => Some (JArr (reverse (v :: acc)), r')
      | _ => None
      end
  end
with parse_members (fuel : nat) (s : string) (acc : list (string * Json))
    : option (Json * string) :=
  match fuel with
  | O => None
  | S fuel =>
      match skip_ws s with
      | String c r =>
          if (code c =? 34)%N then
            '(k, r1) ← parse_chars r EmptyString;
            match skip_ws r1 with
            | String ":" r2 =>
                '(v, r3) ← parse_value fuel r2;
                match skip_ws r3 with
                | String "," r' => parse_members fuel r' ((k, v) :: acc)
                | String "}" r' => Some (JObj (reverse ((k, v) :: acc)), r')
                | _ => None
                end
            | _ => None
            end
          else None
      | EmptyString => None
      end
  end.

Definition parse_json (s : string) : option Json :=
  '(v, r) ← parse_value (2 * String.length s + 2) s;
  match skip_ws r with
  | EmptyString => Some v
  | _ => None
  end.

Fixpoint member (k : string) (ms : list (string * Json)) : option Json :=
  match ms with
  | [] => None
  | (k', v) :: ms' => if String.eqb k k' then Some v else member k ms'
  end.

Definition todo_of_json (j : Json) : option Todo :=
  match j with
  | JObj ms =>
      match member "id" ms, member "text" ms, member "completed" ms with
      | Some (JStr i), Some (JStr t), Some (JBool c) =>
          match member "createdAt" ms with
          | None => Some (mkTodo i t c None)
          | Some (JStr d) => Some (mkTodo i t c (Some d))
          | Some _ => None
          end
      | _, _, _ => None
      end
  | _ => None
  end.

Definition parse (s : string) : option (list Todo) :=
  j ← parse_json s;
  match j with
  | JArr l => mapM todo_of_json l
  | _ => None
  end.

(** [String.prototype.trim] on ASCII white space. *)
Definition is_space (c : ascii) : bool :=
  let n := code c in
  ((n =? 32) || ((9 <=? n) && (n <=? 13)))%N.

Fixpoint trimStart (s : string) : string :=
  match s with
  | String c s' => if is_space c then trimStart s' else s
  | EmptyString => EmptyString
  end.

Definition trim (s : string) : string :=
  String.rev (trimStart (String.rev (trimStart s))).

(** [Date.prototype.toISOString] for a time in milliseconds since the epoch. *)
Definition pad (width : nat) (n : N) : string :=
  let d := pretty n in
  String.string_of_list_ascii (replicate (width - String.length d) "0"%char) +:+ d.

Definition civil_from_days (days : N) : N * N * N :=
  (let z := days + 719468 in
   let era := z / 146097 in
   let doe := z mod 146097 in
   let yoe := (doe - doe / 1460 + doe / 36524 - doe / 146096) / 365 in
   let doy := doe - (365 * yoe + yoe / 4 - yoe / 100) in
   let mp := (5 * doy + 2) / 153 in
   let d := doy - (153 * mp + 2) / 5 + 1 in
   let m := if mp <? 10 then mp + 3 else mp - 9 in
   let y := yoe + era * 400 in
   (if m <=? 2 then y + 1 else y, m, d))%N.

Definition ms_per_day : N := 86400000.

Definition toISOString (ms : N) : string :=
  let '(y, m, d) := civil_from_days (ms / ms_per_day)%N in
  let t := (ms mod ms_per_day)%N in
  pad 4 y +:+ "-" +:+ pad 2 m +:+ "-" +:+ pad 2 d +:+ "T" +:+
  pad 2 (t / 3600000)%N +:+ ":" +:+ pad 2 (t / 60000 mod 60)%N +:+ ":" +:+
  pad 2 (t / 1000 mod 60)%N +:+ "." +:+ pad 3 (t mod 1000)%N +:+ "Z".

Definition runtime : Runtime := {|
  JSON_stringify := stringify;
  JSON_parse := parse;
  String_trim := trim;
  Date_toISOString := toISOString;
|}.

End Reference.

(** ** Observing executions *)

(** The listener invocations made between two worlds of one execution. *)
Definition calls_since (w w' : World) : list Listener :=
  drop (length (calls w)) (calls w').

Definition times_called (l : Listener) (cs : list Listener) : nat :=
  length (filter (λ x, x = l) cs).

(** The operations a client can perform on a store, and their execution. *)
Inductive StoreOp :=
| OpSubscribe (l : Listener)
| OpUnsubscribe (l : Listener)
| OpGetSnapshot
| OpUpdateTodos (newTodos : JsArray).

Definition is_write (op : StoreOp) : bool :=
  match op with OpUpdateTodos _ => true | _ => false end.

Definition resubscribes (l : Listener) (op : StoreOp) : bool :=
  match op with
  | OpSubscribe l' => bool_decide (l' = l)
  | _ => false
  end.

Definition store_op `{Runtime} (op : StoreOp) (s : Store) : M Store :=
  match op with
  | OpSubscribe l => ret (subscribe l s)
  | OpUnsubscribe l => ret (unsubscribe l s)
  | OpGetSnapshot => let _ := getSnapshot s in ret s
  | OpUpdateTodos newTodos => updateTodos newTodos s
  end.

Fixpoint store_ops `{Runtime} (ops : list StoreOp) (s : Store) : M Store :=
  match ops with
  | [] => ret s
  | op :: ops' => let! s := store_op op s in store_ops ops' s
  end.

(** An item is speculative when its id starts with "temp-" (the test the
    statistics of [App] use). *)
Definition speculative (t : Todo) : bool := String.prefix "temp-" (todo_id t).

Definition durable (l : list Todo) : Prop := Forall (λ t, speculative t = false) l.

(** The array a suspended handler closes over. *)
Definition captured (p : Pending) : JsArray :=
  match p with
  | AddPending storedTodos _ _ => storedTodos
  | TogglePending original _ => original
  | DeletePending original _ => original
  | UpdatePending original _ _ => original
  end.

(** Whatever is under the key "todos" is the serialisation of a list
    without speculative items. *)
Definition storage_durable `{Runtime} (ls : gmap string string) : Prop :=
  ∀ stored, ls !! "todos" = Some stored →
            ∃ l, stored = JSON_stringify l ∧ durable l.

(** No speculative item in the store, in what the calls in flight may
    still write, or in durable storage. *)
Definition no_speculative `{Runtime} (a : App) (w : World) : Prop :=
  durable (elems (getSnapshot (todoStore a)))
  ∧ Forall (λ p, durable (elems (captured p))) (inflight a)
  ∧ storage_durable (localStorage w).

(** The mutations and the pure list transformation of each, in the words
    of the specification: append the confirmed item; flip [completed] of
    the matching id; remove the matching id; replace [text] of the matching
    id. *)
Inductive Mutation :=
| MAdd (confirmed : Todo)
| MToggle (id : string)
| MDelete (id : string)
| MUpdate (id newText : string).

Definition transform (m : Mutation) (l : list Todo) : list Todo :=
  match m with
  | MAdd confirmed => l ++ [confirmed]
  | MToggle id =>
      map (λ t, if String.eqb (todo_id t) id
                then mkTodo (todo_id t) (todo_text t) (negb (todo_completed t))
                            (todo_createdAt t)
                else t) l
  | MDelete id => List.filter (λ t, negb (String.eqb (todo_id t) id)) l
  | MUpdate id newText =>
      map (λ t, if String.eqb (todo_id t) id
                then mkTodo (todo_id t) newText (todo_completed t) (todo_createdAt t)
                else t) l
  end.

Definition transform_all (ms : list Mutation) (l : list Todo) : list Todo :=
  fold_left (λ l m, transform m l) ms l.

(** What the user asks for, the event that issues it, how long the remote
    call takes, and the mutation it stands for when the call is issued at
    time [now] and is the only one in flight. *)
Inductive Request :=
| ReqAdd (text : string)
| ReqToggle (id : string)
| ReqDelete (id : string)
| ReqUpdate (id newText : string).

Definition issue (r : Request) : Event :=
  match r with
  | ReqAdd text => EvAdd text
  | ReqToggle id => EvToggle id
  | ReqDelete id => EvDelete id
  | ReqUpdate id newText => EvUpdate id newText
  end.

Definition latency (r : Request) : N :=
  match r with
  | ReqAdd _ => 1500
  | ReqToggle _ => 800
  | ReqDelete _ => 1000
  | ReqUpdate _ _ => 1000
  end.

Definition mutation_of `{Runtime} (r : Request) (now : N) : Mutation :=
  match r with
  | ReqAdd text =>
      MAdd (mkTodo (Number_toString (now + 1500)) text false
                   (Some (Date_toISOString (now + 1500)%N)))
  | ReqToggle id => MToggle id
  | ReqDelete id => MDelete id
  | ReqUpdate id newText => MUpdate id newText
  end.

(** Every request settled before the next is issued. *)
Definition one_at_a_time (rs : list Request) : list Event :=
  flat_map (λ r, [issue r; EvSettle 0]) rs.

Fixpoint expected `{Runtime} (rs : list Request) (now : N) (l : list Todo) : list Todo :=
  match rs with
  | [] => l
  | r :: rs' => expected rs' (now + latency r) (transform (mutation_of r now) l)
  end.

(** The mutation an event issues at once, if any. *)
Definition issued (ev : Event) : option Mutation :=
  match ev with
  | EvToggle id => Some (MToggle id)
  | EvDelete id => Some (MDelete id)
  | EvUpdate id newText => Some (MUpdate id newText)
  | _ => None
  end.

Definition is_add (p : Pending) : bool :=
  match p with AddPending _ _ _ => true | _ => false end.

Definition adds_or_clears (ev : Event) : bool :=
  match ev with EvAdd _ | EvClearAll _ => true | _ => false end.

(** The error the remote call of a request is rejected with, if it is. *)
Definition remote_error (api : Api) (r : Request) (e : Env) : option JsError :=
  let error_of {A} (c : Completion A) :=
    match c with Throw err => Some err | Normal _ => None end in
  match r with
  | ReqAdd text => error_of (addTodo api text e).1
  | ReqToggle id => error_of (toggleTodo api id e).1
  | ReqDelete id => error_of (deleteTodo api id e).1
  | ReqUpdate id newText => error_of (updateTodo api id newText e).1
  end.

(** The request a suspended handler is waiting for. *)
Definition request_of (p : Pending) : Request :=
  match p with
  | AddPending _ _ text => ReqAdd text
  | TogglePending _ id => ReqToggle id
  | DeletePending _ id => ReqDelete id
  | UpdatePending _ id newText => ReqUpdate id newText
  end.

(** "The failure notification carries the error's message", for one
    request issued in [a] and settled next. *)
Definition shows_error_message `{Runtime} (api : Api) (r : Request)
    (a : App) (w : World) : Prop :=
  let a1 := (dispatch api (issue r) a w).1 in
  let w1 := (dispatch api (issue r) a w).2 in
  let a2 := (dispatch api (EvSettle (length (inflight a))) a1 w1).1 in
  ∀ err, remote_error api r (env w1) = Some err →
         toast a2 = Some (mkToast (err_message err) "error").

(** "A store created after [updateTodos(x)] holds a list deep-equal to [x],
    or the empty list", for one write. *)
Definition reloads_written_or_empty `{Runtime} (x : JsArray) (s : Store)
    (w : World) : Prop :=
  let fresh := getSnapshot (createTodoStore (updateTodos x s w).2).1 in
  deep_equal fresh x ∨ elems fresh = [].

(** The runtime's JSON reads back what it wrote for this list. *)
Definition json_faithful `{Runtime} (l : list Todo) : Prop :=
  JSON_stringify l ≠ EmptyString ∧ JSON_parse (JSON_stringify l) = Some l.

(** A string that is empty or starts with a decimal digit. *)
Definition digit_head (s : string) : Prop :=
  match s with
  | EmptyString => True
  | String c _ => (48 ≤ N_of_ascii c ≤ 57)%N
  end.

(** Whether the toast on display reports a failure. *)
Definition is_error (t : option Toast) : bool :=
  match t with
  | Some t => String.eqb (toast_type t) "error"
  | None => false
  end.

(** ** App.jsx: the statistics under the list *)

Record Stats := mkStats {
  total : nat;
  completed : nat;
  active : nat;
  optimistic : nat;
}.

Definition stats (a : App) : Stats :=
  let l := optimisticTodos a in
  {| total := length l;
     completed := length (List.filter todo_completed l);
     active := length (List.filter (λ t, negb (todo_completed t)) l);
     optimistic := length (List.filter speculative l) |}.

(** The speculative items on display. *)
Definition overlay (a : App) : list Todo :=
  omap (λ p, match p with AddPending _ tempTodo _ => Some tempTodo | _ => None end)
       (inflight a).

(** The speculative item of every add in flight is a "temp-" item that is
    not completed. *)
Definition overlay_speculative (a : App) : Prop :=
  Forall (λ p, match p with
               | AddPending _ tempTodo _ =>
                   speculative tempTodo = true ∧ todo_completed tempTodo = false
               | _ => True
               end) (inflight a).

(** ** components/TodoItem.jsx *)

(** The local state of one rendered item ([isPending] belongs to React's
    transition and is an input of every event). *)
Record ItemState := mkItem {
  isEditing : bool;
  editText : string;
}.

(** The props [onToggle], [onDelete] and [onUpdate], as calls made. *)
Inductive Call :=
| CallToggle (id : string)
| CallDelete (id : string)
| CallUpdate (id newText : string).

Inductive Key := Enter | Escape | OtherKey.

(** What the user can do to an item.  A control that is not rendered in
    the current state, or is rendered [disabled], fires nothing. *)
Inductive ItemEvent :=
| ChangeCheckbox
| DoubleClickText
| ClickEdit
| ClickDelete
| ChangeEditInput (value : string)
| KeyDownEditInput (key : Key)
| ClickSave
| ClickCancel.

Definition TodoItem_init (todo : Todo) : ItemState :=
  mkItem false (todo_text todo).

Section item.
Context {RT : Runtime}.
Variable todo : Todo.

Definition isOptimistic : bool := String.prefix "temp-" (todo_id todo).

Definition handleToggle (st : ItemState) : ItemState * list Call :=
  (st, [CallToggle (todo_id todo)]).

Definition handleDelete (st : ItemState) : ItemState * list Call :=
  (st, [CallDelete (todo_id todo)]).

Definition handleSave (st : ItemState) : ItemState * list Call :=
  if String.eqb (String_trim (editText st)) EmptyString then (st, [])
  else (mkItem false (editText st), [CallUpdate (todo_id todo) (editText st)]).

Definition cancelEdit (st : ItemState) : ItemState * list Call :=
  (mkItem false (todo_text todo), []).

Definition TodoItem_event (isPending : bool) (ev : ItemEvent) (st : ItemState)
    : ItemState * list Call :=
  match ev with
  | ChangeCheckbox =>
      if isPending || isOptimistic then (st, []) else handleToggle st
  | DoubleClickText =>
      if isEditing st then (st, [])
      else if negb isOptimistic && negb isPending
           then (mkItem true (editText st), [])
           else (st, [])
  | ClickEdit =>
      if isEditing st || (isOptimistic || isPending) then (st, [])
      else (mkItem true (editText st), [])
  | ClickDelete =>
      if isEditing st || (isOptimistic || isPending) then (st, [])
      else handleDelete st
  | ChangeEditInput value =>
      if isEditing st then (mkItem (isEditing st) value, []) else (st, [])
  | KeyDownEditInput key =>
      if isEditing st then
        match key with
        | Enter => handleSave st
        | Escape => cancelEdit st
        | OtherKey => (st, [])
        end
      else (st, [])
  | ClickSave =>
      if isEditing st && negb isPending then handleSave st else (st, [])
  | ClickCancel =>
      if isEditing st then cancelEdit st else (st, [])
  end.

(** A session with the item: each event with the [isPending] of its render. *)
Fixpoint TodoItem_events (evs : list (bool * ItemEvent)) (st : ItemState)
    : ItemState * list Call :=
  match evs with
  | [] => (st, [])
  | (isPending, ev) :: evs' =>
      let '(st1, calls1) := TodoItem_event isPending ev st in
      let '(st2, calls2) := TodoItem_events evs' st1 in
      (st2, calls1 ++ calls2)
  end.
End item.

(** The handler of [App] a call of the item reaches. *)
Definition event_of_call (c : Call) : Event :=
  match c with
  | CallToggle id => EvToggle id
  | CallDelete id => EvDelete id
  | CallUpdate id newText => EvUpdate id newText
  end.

(** ** components/NetworkStatus.jsx *)

(** The browser window: the listeners registered per event type (a target
    keeps one registration per callback), [navigator.onLine], and the
    callbacks invoked so far. *)
Record Window := mkWindow {
  eventListeners : gmap string (gset Listener);
  navigator_onLine : bool;
  invoked : list Listener;
}.

Definition registered (type : string) (callback : Listener) (win : Window) : Prop :=
  callback ∈ default ∅ (eventListeners win !! type).

Definition addEventListener (type : string) (callback : Listener) (win : Window) : Window :=
  mkWindow
    (<[type := {[callback]} ∪ default ∅ (eventListeners win !! type)]> (eventListeners win))
    (navigator_onLine win) (invoked win).

Definition removeEventListener (type : string) (callback : Listener) (win : Window) : Window :=
  mkWindow
    (<[type := default ∅ (eventListeners win !! type) ∖ {[callback]}]> (eventListeners win))
    (navigator_onLine win) (invoked win).

(** The connection going down or coming back: the flag changes, then the
    event is dispatched to its listeners. *)
Definition connection_changes (online : bool) (win : Window) : Window :=
  let type := if online then "online" else "offline" in
  mkWindow (eventListeners win) online
    (invoked win ++ elements (default ∅ (eventListeners win !! type))).

(** The three arguments [NetworkStatus] gives [useSyncExternalStore]. *)
Definition NetworkStatus_subscribe (callback : Listener) (win : Window) : Window :=
  addEventListener "offline" callback (addEventListener "online" callback win).

Definition NetworkStatus_cleanup (callback : Listener) (win : Window) : Window :=
  removeEventListener "offline" callback (removeEventListener "online" callback win).

Definition NetworkStatus_getSnapshot (win : Window) : bool := navigator_onLine win.

(** How often each listener of a store has been told of a write, counted
    over a list of operations. *)
Definition writes (ops : list StoreOp) : nat := length (List.filter is_write ops).

Definition mentions (l : Listener) (op : StoreOp) : bool :=
  match op with
  | OpSubscribe l' | OpUnsubscribe l' => bool_decide (l' = l)
  | _ => false
  end.

Definition has_id (id : string) (l : list Todo) : Prop :=
  Exists (λ t, todo_id t = id) l.

(** Durable storage holds the serialisation of the list in memory. *)
Definition in_sync `{Runtime} (a : App) (w : World) : Prop :=
  localStorage w !! "todos"
  = Some (JSON_stringify (elems (getSnapshot (todoStore a)))).

(** Nothing has been written between two states of one execution. *)
Definition untouched (a : App) (w : World) (a' : App) (w' : World) : Prop :=
  todoStore a' = todoStore a ∧ localStorage w' = localStorage w.

(** How many times the store is written when a request is issued, and when
    its remote call settles. *)
Definition is_add_request (r : Request) : bool :=
  match r with ReqAdd _ => true | _ => false end.

Definition issue_writes (r : Request) : nat :=
  if is_add_request r then 0 else 1.

Definition settle_writes (r : Request) (rejected : bool) : nat :=
  if is_add_request r then (if rejected then 0 else 1)
  else (if rejected then 1 else 0).

Definition rejects (api : Api) (r : Request) (e : Env) : bool :=
  match remote_error api r e with Some _ => true | None => false end.

(** The item [todoApi.addTodo] confirms for [text] when its timer is set
    at time [now]. *)
Definition confirmed_item `{Runtime} (text : string) (now : N) : Todo :=
  mkTodo (Number_toString (now + 1500)) text false
         (Some (Date_toISOString (now + 1500)%N)).

(** The id a call of an item is about, and the text it carries. *)
Definition call_id (c : Call) : string :=
  match c with
  | CallToggle id | CallDelete id | CallUpdate id _ => id
  end.

Definition call_text (c : Call) : option string :=
  match c with
  | CallUpdate _ newText => Some newText
  | _ => None
  end.

(** ** Test doubles and scenarios *)

(** A remote service every call of which is rejected with [Error(msg)],
    after the same delays as [todoApi]. *)
Definition rejecting (msg : string) : Api := {|
  addTodo _ := do! delay 1500 in ret (Throw (mkError msg));
  toggleTodo _ := do! delay 800 in ret (Throw (mkError msg));
  deleteTodo _ := do! delay 1000 in ret (Throw (mkError msg));
  updateTodo _ _ := do! delay 1000 in ret (Throw (mkError msg));
|}.

Module Scenario.

(** A browser with empty, working storage. *)
Definition world0 : World :=
  mkWorld (mkEnv 1730000000000 []) 1 ∅ false false [].

Definition item (id text : string) : Todo := mkTodo id text false None.

(** The app mounted over a store that holds [l], with the render subscribed
    as listener 1. *)
Definition mounted `{Runtime} (l : list Todo) : M App :=
  let! a := mount in
  let s := subscribe 1%positive (todoStore a) in
  let! arr := new_array l in
  let! s := updateTodos arr s in
  ret (mkApp s None [] []).

#[local] Existing Instance Reference.runtime.

(** The list of the specification's scenario, mounted. *)
Definition a0 : App := (mounted [item "1" "a"] world0).1.
Definition w0 : World := (mounted [item "1" "a"] world0).2.

Definition offline : Api := rejecting "Network down".

(** A service that rejects the texts [bad] names and is [todoApi] otherwise. *)
Definition flaky (bad : string → bool) : Api := {|
  addTodo text := if bad text then addTodo offline text else addTodo todoApi text;
  toggleTodo := toggleTodo todoApi;
  deleteTodo := deleteTodo todoApi;
  updateTodo := updateTodo todoApi;
|}.

Definition rejects_offline : Api := flaky (String.eqb "offline").

(** An item whose text needs escaping, and a browser whose storage holds
    text that does not parse. *)
Definition quoted : Todo :=
  mkTodo "1730000000000"
         ("say " +:+ Reference.dquote +:+ "hi" +:+ Reference.dquote)
         true (Some "2024-10-27T03:33:20.000Z").

Definition corrupt : World :=
  mkWorld (mkEnv 0 []) 1 {["todos" := "[{oops"]} false false [].

(** A browser whose storage is full: it holds an older list and every
    [setItem] throws. *)
Definition full : World :=
  mkWorld (mkEnv 1730000000000 []) 1
          {["todos" := JSON_stringify [item "9" "old"]]} false true [].

(** A parent whose [onSubmit] throws. *)
Definition throwing_onSubmit (text : string) (t : unit)
    : M (Completion unit * unit) :=
  ret (Throw (mkError "boom"), t).

(** The mounted list after a toggle of item "1" and a confirmed Clear All,
    with the toggle still in flight. *)
Definition cleared : App :=
  (run offline [EvToggle "1"; EvClearAll true] a0 w0).1.
Definition cleared_world : World :=
  (run offline [EvToggle "1"; EvClearAll true] a0 w0).2.

(** The same with an add in flight instead. *)
Definition cleared_during_add : App :=
  (run todoApi [EvAdd "b"; EvClearAll true] a0 w0).1.
Definition cleared_during_add_world : World :=
  (run todoApi [EvAdd "b"; EvClearAll true] a0 w0).2.

End Scenario.

(** * Properties *)

(** ** The local store *)

Section store_facts.
Context {RT : Runtime}.

Lemma forEach_calls ls w :
  forEach ls w = (tt, with_calls (calls w ++ ls) w).
Proof.
  revert w. induction ls as [|l ls IH]; intros w; simpl.
  - unfold ret, with_calls. rewrite app_nil_r. by destruct w.
  - unfold bind, call_listener. rewrite IH. simpl.
    unfold with_calls; simpl. by rewrite <- app_assoc.
Qed.

Lemma times_called_not_in l cs : l ∉ cs → times_called l cs = 0.
Proof.
  unfold times_called. induction cs as [|c cs IH]; intros Hl; [done|].
  apply not_elem_of_cons in Hl as [Hne Hl].
  rewrite filter_cons_False by congruence. auto.
Qed.

Lemma times_called_once l cs : NoDup cs → l ∈ cs → times_called l cs = 1.
Proof.
  unfold times_called. induction 1 as [|c cs Hc Hnd IH]; intros Hl.
  - by apply elem_of_nil in Hl.
  - apply elem_of_cons in Hl as [->|Hl].
    + rewrite filter_cons_True by done. simpl. f_equal.
      by apply times_called_not_in.
    + rewrite filter_cons_False; [auto|]. intros ->. contradiction.
Qed.

Lemma times_called_app l cs1 cs2 :
  times_called l (cs1 ++ cs2) = times_called l cs1 + times_called l cs2.
Proof. unfold times_called. by rewrite filter_app, length_app. Qed.

(** What [updateTodos] does to the store and to the world, in one equation. *)
Lemma updateTodos_unfold newTodos s w :
  updateTodos newTodos s w =
  (mkStore (listeners s) newTodos,
   with_calls (calls w ++ elements (listeners s))
     (if setItem_throws w
      then with_env (mkEnv (clock (env w))
                       (console (env w) ++ [console_error "Failed to persist:"])) w
      else with_localStorage
             (<["todos" := JSON_stringify (elems newTodos)]> (localStorage w)) w)).
Proof.
  unfold updateTodos, bind, localStorage_setItem. simpl.
  destruct (setItem_throws w) eqn:Hthrows; simpl.
  - unfold lift_env, console_write. simpl. by rewrite forEach_calls.
  - unfold ret. by rewrite forEach_calls.
Qed.

Lemma updateTodos_calls newTodos s w :
  calls (updateTodos newTodos s w).2 = calls w ++ elements (listeners s).
Proof. rewrite updateTodos_unfold. simpl. by destruct (setItem_throws w). Qed.

Lemma calls_since_app w w' cs : calls w' = calls w ++ cs → calls_since w w' = cs.
Proof. unfold calls_since. intros ->. by rewrite drop_app_length. Qed.

(** C6.  [updateTodos(newTodos)] returns normally in every world, and when
    it has returned the store's list is [newTodos] itself, the set of
    listeners is unchanged, and every listener subscribed at the call has
    been invoked exactly once (nobody else has been invoked) -- whether or
    not [localStorage.setItem] threw.  If it threw, storage is left as it
    was and the failure is only logged; otherwise the serialised list is
    under the key "todos". *)
Theorem updateTodos_replaces_and_notifies_once newTodos s w :
  let s' := (updateTodos newTodos s w).1 in
  let w' := (updateTodos newTodos s w).2 in
  getSnapshot s' = newTodos
  ∧ listeners s' = listeners s
  ∧ calls w' = calls w ++ calls_since w w'
  ∧ (∀ l, l ∈ listeners s → times_called l (calls_since w w') = 1)
  ∧ (∀ l, l ∉ listeners s → times_called l (calls_since w w') = 0)
  ∧ (if setItem_throws w
     then localStorage w' = localStorage w
          ∧ console (env w') = console (env w) ++ [console_error "Failed to persist:"]
     else localStorage w' = <["todos" := JSON_stringify (elems newTodos)]> (localStorage w)
          ∧ console (env w') = console (env w)).
Proof.
  cbv zeta.
  rewrite (calls_since_app w _ (elements (listeners s)))
    by apply updateTodos_calls.
  rewrite updateTodos_calls, updateTodos_unfold. simpl.
  repeat split; try done.
  - intros l Hl. apply times_called_once; [apply NoDup_elements|].
    by apply elem_of_elements.
  - intros l Hl. apply times_called_not_in. by rewrite elem_of_elements.
  - destruct (setItem_throws w); simpl; done.
Qed.

Lemma store_ops_cons op ops s w :
  store_ops (op :: ops) s w = store_ops ops (store_op op s w).1 (store_op op s w).2.
Proof. simpl. unfold bind. by destruct (store_op op s w). Qed.

(** A listener that is not subscribed, and is not subscribed again, stays
    out of the set and out of the invocation log. *)
Lemma store_ops_skip_unsubscribed l ops : ∀ s w,
  l ∉ listeners s →
  Forall (λ op, resubscribes l op = false) ops →
  ∃ cs, calls (store_ops ops s w).2 = calls w ++ cs ∧ l ∉ cs.
Proof.
  induction ops as [|op ops IH]; intros s w Hl Hops.
  - exists []. simpl. rewrite app_nil_r. split; [done|]. apply not_elem_of_nil.
  - apply Forall_cons in Hops as [Hop Hops]. rewrite store_ops_cons.
    destruct op as [l'|l'| |newTodos]; simpl in *.
    + apply IH; [|done]. apply bool_decide_eq_false in Hop.
      unfold subscribe. simpl. rewrite elem_of_union, elem_of_singleton.
      intros [Heq|Hin]; [by subst|done].
    + apply IH; [|done].
      unfold unsubscribe. simpl. rewrite elem_of_difference. by intros [Hin _].
    + by apply IH.
    + destruct (IH (updateTodos newTodos s w).1 (updateTodos newTodos s w).2)
        as (cs & Hcs & Hnot); [by rewrite updateTodos_unfold|done|].
      exists (elements (listeners s) ++ cs).
      rewrite Hcs, updateTodos_calls, <- app_assoc. split; [done|].
      rewrite elem_of_app, elem_of_elements. tauto.
Qed.

(** C7.  Once the function returned by [subscribe(l)] has been called, [l]
    is invoked zero times by everything that follows -- any number of
    [updateTodos] writes, snapshots, and subscriptions of other listeners --
    for as long as [l] itself is not subscribed again. *)
Theorem unsubscribed_listener_never_called l ops s w :
  Forall (λ op, resubscribes l op = false) ops →
  times_called l (calls_since w (store_ops ops (unsubscribe l s) w).2) = 0.
Proof.
  intros Hops.
  destruct (store_ops_skip_unsubscribed l ops (unsubscribe l s) w)
    as (cs & Hcs & Hnot); [|done|].
  { unfold unsubscribe. simpl. rewrite elem_of_difference, elem_of_singleton.
    by intros [_ Hne]. }
  rewrite (calls_since_app _ _ _ Hcs). by apply times_called_not_in.
Qed.

(** C8.  Across any operations on the store that are not [updateTodos]
    writes, [getSnapshot] returns the very same array: the same reference
    (and so the same elements). *)
Theorem getSnapshot_referentially_stable ops s w :
  Forall (λ op, is_write op = false) ops →
  same_reference (getSnapshot (store_ops ops s w).1) (getSnapshot s)
  ∧ getSnapshot (store_ops ops s w).1 = getSnapshot s.
Proof.
  revert s w. induction ops as [|op ops IH]; intros s w Hops; [done|].
  apply Forall_cons in Hops as [Hop Hops]. rewrite store_ops_cons.
  destruct op as [l|l| |newTodos]; simpl in *; try discriminate.
  - apply (IH (subscribe l s) w Hops).
  - apply (IH (unsubscribe l s) w Hops).
  - apply (IH s w Hops).
Qed.

(** What a fresh store holds, by the state of [localStorage]. *)
Lemma createTodoStore_elems w :
  elems (getSnapshot (createTodoStore w).1) =
  if getItem_throws w then []
  else match localStorage w !! "todos" with
       | None => []
       | Some stored =>
           if String.eqb stored EmptyString then []
           else default [] (JSON_parse stored)
       end.
Proof.
  unfold createTodoStore, bind, localStorage_getItem, new_array. simpl.
  destruct (getItem_throws w); [done|]. simpl.
  destruct (localStorage w !! "todos") as [[|c stored]|]; simpl; try done.
  by destruct (JSON_parse (String c stored)).
Qed.

Lemma createTodoStore_listeners w : listeners (createTodoStore w).1 = ∅.
Proof.
  unfold createTodoStore, bind, localStorage_getItem, new_array. simpl.
  destruct (getItem_throws w); [done|]. simpl.
  destruct (localStorage w !! "todos") as [[|c stored]|]; simpl; try done.
  by destruct (JSON_parse (String c stored)).
Qed.

(** C5, as the store has it.  When the write of [updateTodos(x)] does not
    throw, storage can be read and JSON reads back what it wrote,
    [updateTodos(x)] followed by a fresh [createTodoStore()] yields a list
    deep-equal to [x].  And a fresh store starts from the empty list
    whenever [getItem] throws, the key is absent, or the stored text does
    not parse; [createTodoStore] returns normally in every world. *)
Theorem persistence_round_trip x s w :
  (setItem_throws w = false → getItem_throws w = false →
   json_faithful (elems x) →
   deep_equal (getSnapshot (createTodoStore (updateTodos x s w).2).1) x)
  ∧ (∀ w0 : World,
       getItem_throws w0 = true
       ∨ localStorage w0 !! "todos" = None
       ∨ (∃ stored, localStorage w0 !! "todos" = Some stored
                    ∧ JSON_parse stored = None) →
       elems (getSnapshot (createTodoStore w0).1) = []).
Proof.
  split.
  - intros Hset Hget [Hne Hparse]. unfold deep_equal.
    rewrite createTodoStore_elems, updateTodos_unfold. simpl.
    rewrite Hset. simpl. rewrite Hget, lookup_insert_eq.
    destruct (String.eqb_spec (JSON_stringify (elems x)) EmptyString); [done|].
    by rewrite Hparse.
  - intros w0 Hfail. rewrite createTodoStore_elems.
    destruct (getItem_throws w0); [done|].
    destruct Hfail as [?|[->|(stored & -> & Hparse)]]; [done|done|].
    rewrite Hparse. simpl. by destruct (String.eqb stored EmptyString).
Qed.

End store_facts.

(** ** The mutation handlers *)

Section app_facts.
Context {RT : Runtime}.

Lemma updateTodos_store newTodos s w :
  (updateTodos newTodos s w).1 = mkStore (listeners s) newTodos.
Proof. by rewrite updateTodos_unfold. Qed.

Lemma write_store_unfold arr a w :
  write_store arr a w =
  (with_todoStore (mkStore (listeners (todoStore a)) arr) a,
   (updateTodos arr (todoStore a) w).2).
Proof.
  unfold write_store, bind, ret.
  destruct (updateTodos arr (todoStore a) w) as [s w'] eqn:Hupd.
  simpl. f_equal. f_equal. by rewrite <- (updateTodos_store arr _ w), Hupd.
Qed.

(** Settling the call issued last. *)
Lemma settle_last api n a p w :
  n = length (inflight a) →
  settle api n (await p a) w =
  match p with
  | AddPending storedTodos _ text =>
      (let! c := lift_env (addTodo api text) in
       handleAddTodo_settled storedTodos c a) w
  | TogglePending original id =>
      (let! c := lift_env (toggleTodo api id) in
       handleToggleTodo_settled original c a) w
  | DeletePending original id =>
      (let! c := lift_env (deleteTodo api id) in
       handleDeleteTodo_settled original c a) w
  | UpdatePending original id newText =>
      (let! c := lift_env (updateTodo api id newText) in
       handleUpdateTodo_settled original c a) w
  end.
Proof.
  intros ->. unfold settle, await. simpl.
  rewrite list_lookup_middle by done.
  replace (delete (length (inflight a)) (inflight a ++ [p])) with (inflight a).
  - by destruct a, p.
  - rewrite delete_middle. by rewrite app_nil_r.
Qed.

Lemma lift_env_run {A} (r : R A) w c e' :
  r (env w) = (c, e') → lift_env r w = (c, with_env e' w).
Proof. unfold lift_env. by intros ->. Qed.

Lemma handleToggleTodo_unfold storedTodos id a w :
  handleToggleTodo storedTodos id a w =
  let original := mkArray (next_ref w) (elems storedTodos) in
  let updated := mkArray (Pos.succ (next_ref w))
                   (map (toggle_completed id) (elems storedTodos)) in
  let w1 := with_next_ref (Pos.succ (Pos.succ (next_ref w))) w in
  (await (TogglePending original id)
     (with_todoStore (mkStore (listeners (todoStore a)) updated) a),
   (updateTodos updated (todoStore a) w1).2).
Proof.
  unfold handleToggleTodo, bind, new_array. simpl.
  rewrite write_store_unfold. unfold ret. simpl. by destruct w.
Qed.

Lemma handleDeleteTodo_unfold storedTodos id a w :
  handleDeleteTodo storedTodos id a w =
  let original := mkArray (next_ref w) (elems storedTodos) in
  let updated := mkArray (Pos.succ (next_ref w))
                   (List.filter (id_differs id) (elems storedTodos)) in
  let w1 := with_next_ref (Pos.succ (Pos.succ (next_ref w))) w in
  (await (DeletePending original id)
     (with_todoStore (mkStore (listeners (todoStore a)) updated) a),
   (updateTodos updated (todoStore a) w1).2).
Proof.
  unfold handleDeleteTodo, bind, new_array. simpl.
  rewrite write_store_unfold. unfold ret. simpl. by destruct w.
Qed.

Lemma handleUpdateTodo_unfold storedTodos id newText a w :
  handleUpdateTodo storedTodos id newText a w =
  let original := mkArray (next_ref w) (elems storedTodos) in
  let updated := mkArray (Pos.succ (next_ref w))
                   (map (replace_text id newText) (elems storedTodos)) in
  let w1 := with_next_ref (Pos.succ (Pos.succ (next_ref w))) w in
  (await (UpdatePending original id newText)
     (with_todoStore (mkStore (listeners (todoStore a)) updated) a),
   (updateTodos updated (todoStore a) w1).2).
Proof.
  unfold handleUpdateTodo, bind, new_array. simpl.
  rewrite write_store_unfold. unfold ret. simpl. by destruct w.
Qed.

Lemma handleAddTodo_unfold storedTodos text a w :
  handleAddTodo storedTodos text a w =
  (await (AddPending storedTodos
            (mkTodo ("temp-" +:+ Number_toString (clock (env w))) text false None)
            text) a,
   w).
Proof. unfold handleAddTodo, bind, lift_env, Date_now, ret. simpl. by destruct w. Qed.

(** C1.  A toggle of [k] writes the optimistic list at once; when its
    remote call is then rejected, the store's list is again deep-equal to
    the list before the toggle, and a toast of type "error" is shown. *)
Theorem toggle_failure_restores_snapshot api a w k a1 w1 w1' e e' a2 w2 :
  dispatch api (EvToggle k) a w = (a1, w1) →
  toggleTodo api k (env w1') = (Throw e, e') →
  dispatch api (EvSettle (length (inflight a))) a1 w1' = (a2, w2) →
  elems (getSnapshot (todoStore a1))
    = map (toggle_completed k) (elems (getSnapshot (todoStore a)))
  ∧ deep_equal (getSnapshot (todoStore a2)) (getSnapshot (todoStore a))
  ∧ toast a2 = Some (mkToast "Failed to toggle todo" "error").
Proof.
  unfold dispatch. rewrite handleToggleTodo_unfold. cbv zeta.
  intros [= <- <-] Hreject Hsettle. split; [done|].
  rewrite settle_last in Hsettle by done. unfold bind in Hsettle.
  rewrite (lift_env_run _ _ _ _ Hreject) in Hsettle.
  unfold handleToggleTodo_settled, bind in Hsettle.
  rewrite write_store_unfold in Hsettle. unfold ret in Hsettle.
  by injection Hsettle as <- <-.
Qed.

(** X13.  Whatever has happened since the call was issued, the rollback of
    a rejected toggle, delete or update puts back the very array its
    handler copied when it started -- writes made in between are gone --
    and reports the failure. *)
Lemma rollback_restores_captured api n a w p err :
  inflight a !! n = Some p →
  is_add p = false →
  remote_error api (request_of p) (env w) = Some err →
  getSnapshot (todoStore (settle api n a w).1) = captured p
  ∧ is_error (toast (settle api n a w).1) = true.
Proof.
  intros Hp Hadd Herr. unfold settle. rewrite Hp.
  destruct p as [st tmp text|o id|o id|o id text]; try discriminate;
    simpl in Herr; unfold bind, lift_env.
  - destruct (toggleTodo api id (env w)) as [[v|e] e']; [discriminate|].
    unfold handleToggleTodo_settled, bind. by rewrite write_store_unfold.
  - destruct (deleteTodo api id (env w)) as [[v|e] e']; [discriminate|].
    unfold handleDeleteTodo_settled, bind. by rewrite write_store_unfold.
  - destruct (updateTodo api id text (env w)) as [[v|e] e']; [discriminate|].
    unfold handleUpdateTodo_settled, bind. by rewrite write_store_unfold.
Qed.

(** For add, the claim of C2 holds as stated. *)
Lemma add_shows_error_message api text a w :
  shows_error_message api (ReqAdd text) a w.
Proof.
  unfold shows_error_message, issue, dispatch. rewrite handleAddTodo_unfold.
  cbn [fst snd]. intros err Herr. rewrite settle_last by done.
  simpl in Herr. unfold bind, lift_env.
  destruct (addTodo api text (env w)) as [[t|e] e']; [discriminate|].
  by injection Herr as ->.
Qed.

(** C2, as the handlers have it.  When the remote call is rejected with
    [error], the add handler shows [error.message]; the toggle, delete and
    update handlers each show a fixed text of their own, whatever the
    error says.  All four toasts have type "error". *)
Theorem failure_toasts storedTodos original error a w :
  toast (handleAddTodo_settled storedTodos (Throw error) a w).1
    = Some (mkToast (err_message error) "error")
  ∧ toast (handleToggleTodo_settled original (Throw error) a w).1
    = Some (mkToast "Failed to toggle todo" "error")
  ∧ toast (handleDeleteTodo_settled original (Throw error) a w).1
    = Some (mkToast "Failed to delete todo" "error")
  ∧ toast (handleUpdateTodo_settled original (Throw error) a w).1
    = Some (mkToast "Failed to update todo" "error").
Proof.
  unfold handleToggleTodo_settled, handleDeleteTodo_settled,
    handleUpdateTodo_settled, bind.
  rewrite write_store_unfold. by repeat split.
Qed.

(** *** Speculative items stay out of the store *)

Lemma speculative_temp n text :
  speculative (mkTodo ("temp-" +:+ Number_toString n) text false None) = true.
Proof. unfold speculative. simpl. by destruct (Number_toString n). Qed.

Lemma pretty_N_char_digit x : (48 ≤ N_of_ascii (pretty_N_char x) ≤ 57)%N.
Proof. unfold pretty_N_char. repeat case_match; simpl; lia. Qed.

Lemma pretty_N_go_digit_head x : ∀ s, digit_head s → digit_head (pretty_N_go x s).
Proof.
  induction (N.lt_wf_0 x) as [x _ IH]; intros s Hs.
  destruct (decide (x = 0)%N) as [->|Hx]; [by rewrite pretty_N_go_0|].
  rewrite pretty_N_go_step by lia.
  apply IH; [apply N.div_lt; lia|]. apply pretty_N_char_digit.
Qed.

(** [Date.now().toString()] starts with a digit. *)
Lemma Number_toString_digit_head n : digit_head (Number_toString n).
Proof.
  unfold Number_toString, pretty, pretty_N. case_decide.
  - simpl. lia.
  - by apply pretty_N_go_digit_head.
Qed.

Lemma prefix_cons a s1 b s2 :
  String.prefix (String a s1) (String b s2)
  = if ascii_dec a b then String.prefix s1 s2 else false.
Proof. done. Qed.

(** The items [todoApi.addTodo] confirms have durable ids. *)
Lemma todoApi_confirms_durable text e t e' :
  addTodo todoApi text e = (Normal t, e') → speculative t = false.
Proof.
  intros [= <- _]. unfold speculative. cbn [todo_id].
  pose proof (Number_toString_digit_head (clock e + 1500)) as Hhead.
  destruct (Number_toString (clock e + 1500)) as [|c s]; [done|].
  rewrite prefix_cons.
  destruct (ascii_dec "t" c) as [<-|]; [simpl in Hhead; lia|done].
Qed.

Lemma durable_map f l :
  (∀ t, todo_id (f t) = todo_id t) → durable l → durable (map f l).
Proof.
  intros Hf. unfold durable. induction 1 as [|t l Ht Hl IH]; simpl; constructor.
  - unfold speculative in *. by rewrite Hf.
  - done.
Qed.

Lemma durable_toggle id l : durable l → durable (map (toggle_completed id) l).
Proof.
  apply durable_map. intros t. unfold toggle_completed.
  by destruct (String.eqb (todo_id t) id).
Qed.

Lemma durable_replace id newText l : durable l → durable (map (replace_text id newText) l).
Proof.
  apply durable_map. intros t. unfold replace_text.
  by destruct (String.eqb (todo_id t) id).
Qed.

Lemma durable_filter f l : durable l → durable (List.filter f l).
Proof.
  unfold durable. rewrite !Forall_forall. intros Hl t Ht.
  apply list_elem_of_In, filter_In in Ht as [Ht _]. by apply Hl, list_elem_of_In.
Qed.

Lemma localStorage_updateTodos arr s w :
  localStorage (updateTodos arr s w).2 =
  if setItem_throws w then localStorage w
  else <["todos" := JSON_stringify (elems arr)]> (localStorage w).
Proof. rewrite updateTodos_unfold. simpl. by destruct (setItem_throws w). Qed.

Lemma storage_durable_updateTodos arr s w :
  storage_durable (localStorage w) → durable (elems arr) →
  storage_durable (localStorage (updateTodos arr s w).2).
Proof.
  intros Hw Harr. rewrite localStorage_updateTodos.
  destruct (setItem_throws w); [done|].
  intros stored. rewrite lookup_insert_eq. intros [= <-]. eauto.
Qed.

(** Writing a durable list keeps the invariant. *)
Lemma no_speculative_write arr a w w0 :
  durable (elems arr) →
  Forall (λ p, durable (elems (captured p))) (inflight a) →
  storage_durable (localStorage w) →
  localStorage w0 = localStorage w →
  no_speculative (write_store arr a w0).1 (write_store arr a w0).2.
Proof.
  intros Harr Hin Hw Hw0. rewrite write_store_unfold. repeat split; try done.
  simpl. apply storage_durable_updateTodos; [by rewrite Hw0|done].
Qed.

(** A first visit: nothing under the key, an empty store. *)
Lemma mount_fresh_no_speculative w :
  localStorage w !! "todos" = None → no_speculative (mount w).1 (mount w).2.
Proof.
  intros Hfresh. unfold mount, bind.
  destruct (createTodoStore w) as [s w'] eqn:Hcreate. simpl.
  assert (Hs : elems (getSnapshot s) = []).
  { change s with (s, w').1. rewrite <- Hcreate, createTodoStore_elems, Hfresh.
    by destruct (getItem_throws w). }
  assert (Hw : localStorage w' = localStorage w).
  { change w' with (s, w').2. rewrite <- Hcreate.
    unfold createTodoStore, bind, localStorage_getItem, new_array. simpl.
    destruct (getItem_throws w); [done|]. simpl. by rewrite Hfresh. }
  unfold ret. repeat split.
  - unfold durable. cbn [fst todoStore]. rewrite Hs. constructor.
  - constructor.
  - intros stored. cbn [snd]. rewrite Hw, Hfresh. discriminate.
Qed.

Section invariant.
Variable api : Api.
Hypothesis api_confirms_durable :
  ∀ text e t e', addTodo api text e = (Normal t, e') → speculative t = false.

Lemma no_speculative_settle n a w :
  no_speculative a w → no_speculative (settle api n a w).1 (settle api n a w).2.
Proof.
  intros (Hstore & Hin & Hw). unfold settle.
  destruct (inflight a !! n) as [p|] eqn:Hp; [|done].
  assert (Hcap : durable (elems (captured p))).
  { eapply Forall_lookup_1 in Hin; [|exact Hp]. done. }
  assert (Hin' : Forall (λ p, durable (elems (captured p))) (delete n (inflight a)))
    by by apply Forall_delete.
  destruct p as [st tmp text|o id|o id|o id text]; simpl in Hcap;
    unfold bind, lift_env.
  - destruct (addTodo api text (env w)) as [[t|err] e'] eqn:Hadd; simpl.
    + unfold new_array, bind. simpl.
      match goal with
      | |- context [write_store ?arr ?a ?w] =>
          pose proof (no_speculative_write arr a w w) as Hwrite
      end.
      destruct (write_store _ _ _) as [a' w'] eqn:Hws. simpl in *.
      apply Hwrite; try done.
      apply Forall_app. split; [done|]. apply Forall_singleton. eauto.
    + done.
  - destruct (toggleTodo api id (env w)) as [[v|err] e']; simpl; [done|].
    unfold bind.
    match goal with
    | |- context [write_store ?arr ?a ?w] =>
        pose proof (no_speculative_write arr a w w) as Hwrite
    end.
    destruct (write_store _ _ _) as [a' w'] eqn:Hws. simpl in *. by apply Hwrite.
  - destruct (deleteTodo api id (env w)) as [[v|err] e']; simpl; [done|].
    unfold bind.
    match goal with
    | |- context [write_store ?arr ?a ?w] =>
        pose proof (no_speculative_write arr a w w) as Hwrite
    end.
    destruct (write_store _ _ _) as [a' w'] eqn:Hws. simpl in *. by apply Hwrite.
  - destruct (updateTodo api id text (env w)) as [[v|err] e']; simpl; [done|].
    unfold bind.
    match goal with
    | |- context [write_store ?arr ?a ?w] =>
        pose proof (no_speculative_write arr a w w) as Hwrite
    end.
    destruct (write_store _ _ _) as [a' w'] eqn:Hws. simpl in *. by apply Hwrite.
Qed.

Lemma Forall_await (P : Pending → Prop) p a :
  Forall P (inflight a) → P p → Forall P (inflight (await p a)).
Proof. intros Ha Hp. simpl. apply Forall_app. split; [done|by apply Forall_singleton]. Qed.

Lemma no_speculative_dispatch ev a w :
  no_speculative a w → no_speculative (dispatch api ev a w).1 (dispatch api ev a w).2.
Proof.
  intros Hinv. pose proof Hinv as (Hstore & Hin & Hw).
  destruct ev as [text|id|id|id newText|confirmed|n]; unfold dispatch.
  - rewrite handleAddTodo_unfold. repeat split; try done.
    by apply Forall_await.
  - rewrite handleToggleTodo_unfold. cbv zeta.
    assert (Hupd : durable (map (toggle_completed id) (elems (getSnapshot (todoStore a)))))
      by by apply durable_toggle.
    repeat split; try done.
    + by apply (Forall_await (λ p, durable (elems (captured p)))).
    + by apply storage_durable_updateTodos.
  - rewrite handleDeleteTodo_unfold. cbv zeta.
    assert (Hupd : durable (List.filter (id_differs id) (elems (getSnapshot (todoStore a)))))
      by by apply durable_filter.
    repeat split; try done.
    + by apply (Forall_await (λ p, durable (elems (captured p)))).
    + by apply storage_durable_updateTodos.
  - rewrite handleUpdateTodo_unfold. cbv zeta.
    assert (Hupd : durable (map (replace_text id newText) (elems (getSnapshot (todoStore a)))))
      by by apply durable_replace.
    repeat split; try done.
    + by apply (Forall_await (λ p, durable (elems (captured p)))).
    + by apply storage_durable_updateTodos.
  - unfold handleClearAll. destruct confirmed; [|done].
    unfold bind, new_array. rewrite write_store_unfold. unfold ret.
    repeat split; try done.
    + constructor.
    + by apply storage_durable_updateTodos; [|constructor].
  - by apply no_speculative_settle.
Qed.

Lemma run_cons ev evs a w :
  run api (ev :: evs) a w = run api evs (dispatch api ev a w).1 (dispatch api ev a w).2.
Proof. simpl. unfold bind. by destruct (dispatch api ev a w). Qed.

Lemma no_speculative_run evs : ∀ a w,
  no_speculative a w → no_speculative (run api evs a w).1 (run api evs a w).2.
Proof.
  induction evs as [|ev evs IH]; intros a w Hinv; [done|].
  rewrite run_cons. by apply IH, no_speculative_dispatch.
Qed.

(** C3.  Provided the items the remote service confirms have durable ids
    (those of [todoApi] do), an execution that starts without speculative
    items never has one in the store, in what a call in flight may still
    write, or under the storage key -- the speculative item of an add lives
    in the rendered overlay only.  In particular an add whose remote call
    is rejected leaves the store as it was (the list is the same array, so
    deep-equal) and storage untouched, and no later snapshot contains a
    speculative item. *)
Theorem speculative_items_never_stored a w :
  no_speculative a w →
  (∀ evs, no_speculative (run api evs a w).1 (run api evs a w).2)
  ∧ (∀ text a1 w1 e e' a2 w2,
       dispatch api (EvAdd text) a w = (a1, w1) →
       addTodo api text (env w1) = (Throw e, e') →
       dispatch api (EvSettle (length (inflight a))) a1 w1 = (a2, w2) →
       (∃ tempTodo, speculative tempTodo = true
                    ∧ optimisticTodos a1 = optimisticTodos a ++ [tempTodo])
       ∧ todoStore a1 = todoStore a
       ∧ todoStore a2 = todoStore a
       ∧ localStorage w2 = localStorage w
       ∧ calls w2 = calls w
       ∧ ∀ evs, durable (elems (getSnapshot (todoStore (run api evs a2 w2).1)))).
Proof.
  intros Hinv. split; [intros evs; by apply no_speculative_run|].
  intros text a1 w1 e e' a2 w2. unfold dispatch at 1.
  rewrite handleAddTodo_unfold. intros [= <- <-] Hreject Hsettle.
  unfold dispatch in Hsettle. rewrite settle_last in Hsettle by done.
  unfold bind in Hsettle. rewrite (lift_env_run _ _ _ _ Hreject) in Hsettle.
  injection Hsettle as <- <-.
  split; [|repeat split; try done].
  - eexists. split; [apply speculative_temp|].
    unfold optimisticTodos. simpl. by rewrite omap_app, app_assoc.
  - intros evs. apply no_speculative_run.
    destruct Hinv as (? & ? & ?). by repeat split.
Qed.

End invariant.

(** ** The simulated remote service *)

Lemma todoApi_addTodo text e :
  addTodo todoApi text e =
  (Normal (mkTodo (Number_toString (clock e + 1500)) text false
                  (Some (Date_toISOString (clock e + 1500)%N))),
   mkEnv (clock e + 1500) (console e ++ [console_log "✅ API: Todo added"])).
Proof. done. Qed.

Lemma todoApi_toggleTodo id e :
  toggleTodo todoApi id e =
  (Normal id, mkEnv (clock e + 800) (console e ++ [console_log "✅ API: Todo toggled"])).
Proof. done. Qed.

Lemma todoApi_deleteTodo id e :
  deleteTodo todoApi id e =
  (Normal id, mkEnv (clock e + 1000) (console e ++ [console_log "✅ API: Todo deleted"])).
Proof. done. Qed.

Lemma todoApi_updateTodo id text e :
  updateTodo todoApi id text e =
  (Normal (id, text),
   mkEnv (clock e + 1000) (console e ++ [console_log "✅ API: Todo updated"])).
Proof. done. Qed.

(** C10.  Each operation of [todoApi] is fulfilled, for every input and in
    every environment, once its fixed delay has passed; so no completion a
    handler awaits is a rejection, and settling a call of [todoApi] never
    runs a [catch] block: it rethrows nothing and shows no "error" toast
    (every [catch] block shows one). *)
Theorem todoApi_never_rejects :
  (∀ text e, is_throw (addTodo todoApi text e).1 = false
             ∧ clock (addTodo todoApi text e).2 = (clock e + 1500)%N)
  ∧ (∀ id e, is_throw (toggleTodo todoApi id e).1 = false
             ∧ clock (toggleTodo todoApi id e).2 = (clock e + 800)%N)
  ∧ (∀ id e, is_throw (deleteTodo todoApi id e).1 = false
             ∧ clock (deleteTodo todoApi id e).2 = (clock e + 1000)%N)
  ∧ (∀ id text e, is_throw (updateTodo todoApi id text e).1 = false
                  ∧ clock (updateTodo todoApi id text e).2 = (clock e + 1000)%N)
  ∧ (∀ n a w, uncaught (settle todoApi n a w).1 = uncaught a
              ∧ (toast (settle todoApi n a w).1 = toast a
                 ∨ is_error (toast (settle todoApi n a w).1) = false)).
Proof.
  repeat split; try done.
  - unfold settle. destruct (inflight a !! n) as [[st tmp text|o id|o id|o id text]|];
      [| | | |done]; unfold bind, lift_env.
    + rewrite todoApi_addTodo. unfold handleAddTodo_settled, bind, new_array.
      by rewrite write_store_unfold.
    + by rewrite todoApi_toggleTodo.
    + by rewrite todoApi_deleteTodo.
    + by rewrite todoApi_updateTodo.
  - unfold settle. destruct (inflight a !! n) as [[st tmp text|o id|o id|o id text]|];
      [| | | |by left]; unfold bind, lift_env.
    + rewrite todoApi_addTodo. unfold handleAddTodo_settled, bind, new_array.
      rewrite write_store_unfold. by right.
    + rewrite todoApi_toggleTodo. by left.
    + rewrite todoApi_deleteTodo. by right.
    + rewrite todoApi_updateTodo. by right.
Qed.

(** *** Successful mutations and call order *)

Lemma env_updateTodos_clock arr s w :
  clock (env (updateTodos arr s w).2) = clock (env w).
Proof. rewrite updateTodos_unfold. simpl. by destruct (setItem_throws w). Qed.

Lemma run_app api evs1 evs2 a w :
  run api (evs1 ++ evs2) a w
  = run api evs2 (run api evs1 a w).1 (run api evs1 a w).2.
Proof.
  revert a w. induction evs1 as [|ev evs1 IH]; intros a w; [done|].
  simpl app. by rewrite !run_cons, IH.
Qed.

(** One request, issued with nothing in flight and settled at once. *)
Lemma request_settled_at_once r a w :
  inflight a = [] →
  inflight (run todoApi [issue r; EvSettle 0] a w).1 = []
  ∧ elems (getSnapshot (todoStore (run todoApi [issue r; EvSettle 0] a w).1))
    = transform (mutation_of r (clock (env w))) (elems (getSnapshot (todoStore a)))
  ∧ clock (env (run todoApi [issue r; EvSettle 0] a w).2)
    = (clock (env w) + latency r)%N.
Proof.
  intros Hidle. rewrite !run_cons. simpl run. unfold ret.
  destruct r as [text|id|id|id newText]; unfold issue, dispatch.
  - rewrite handleAddTodo_unfold. cbn [fst snd].
    rewrite settle_last by (simpl; by rewrite Hidle).
    unfold bind, lift_env. rewrite todoApi_addTodo.
    unfold handleAddTodo_settled, bind, new_array.
    rewrite write_store_unfold. unfold ret. cbn [fst snd].
    by rewrite env_updateTodos_clock.
  - rewrite handleToggleTodo_unfold. cbv zeta. cbn [fst snd].
    rewrite settle_last by (simpl; by rewrite Hidle).
    unfold bind, lift_env. rewrite todoApi_toggleTodo.
    unfold handleToggleTodo_settled, ret. cbn [fst snd].
    repeat split; try done.
    simpl. by rewrite env_updateTodos_clock.
  - rewrite handleDeleteTodo_unfold. cbv zeta. cbn [fst snd].
    rewrite settle_last by (simpl; by rewrite Hidle).
    unfold bind, lift_env. rewrite todoApi_deleteTodo.
    unfold handleDeleteTodo_settled, ret. cbn [fst snd].
    repeat split; try done.
    simpl. by rewrite env_updateTodos_clock.
  - rewrite handleUpdateTodo_unfold. cbv zeta. cbn [fst snd].
    rewrite settle_last by (simpl; by rewrite Hidle).
    unfold bind, lift_env. rewrite todoApi_updateTodo.
    unfold handleUpdateTodo_settled, ret. cbn [fst snd].
    repeat split; try done.
    simpl. by rewrite env_updateTodos_clock.
Qed.

(** X27.  When every request settles before the next is issued, the store
    ends with the transformations applied in call order. *)
Lemma one_at_a_time_in_call_order rs : ∀ a w,
  inflight a = [] →
  inflight (run todoApi (one_at_a_time rs) a w).1 = []
  ∧ elems (getSnapshot (todoStore (run todoApi (one_at_a_time rs) a w).1))
    = expected rs (clock (env w)) (elems (getSnapshot (todoStore a))).
Proof.
  induction rs as [|r rs IH]; intros a w Hidle; [done|].
  change (one_at_a_time (r :: rs)) with ([issue r; EvSettle 0] ++ one_at_a_time rs).
  rewrite run_app.
  destruct (request_settled_at_once r a w Hidle) as (Hidle' & Hlist & Hclock).
  destruct (IH _ (run todoApi [issue r; EvSettle 0] a w).2 Hidle') as [Hfin Hres].
  split; [done|]. rewrite Hres, Hlist, Hclock. done.
Qed.

(** X28.  With no add in flight or issued, calls may overlap and settle in
    any order: toggle, delete and update write when they are called, and
    their fulfilled continuations write nothing. *)
Lemma overlapping_without_add evs : ∀ a w,
  Forall (λ p, is_add p = false) (inflight a) →
  Forall (λ ev, adds_or_clears ev = false) evs →
  elems (getSnapshot (todoStore (run todoApi evs a w).1))
  = transform_all (omap issued evs) (elems (getSnapshot (todoStore a))).
Proof.
  induction evs as [|ev evs IH]; intros a w Hin Hevs; [done|].
  apply Forall_cons in Hevs as [Hev Hevs]. rewrite run_cons.
  destruct ev as [text|id|id|id newText|confirmed|n]; try discriminate;
    unfold dispatch.
  - rewrite handleToggleTodo_unfold. cbv zeta. cbn [fst snd].
    rewrite IH; [done| |done]. by apply (Forall_await (λ p, is_add p = false)).
  - rewrite handleDeleteTodo_unfold. cbv zeta. cbn [fst snd].
    rewrite IH; [done| |done]. by apply (Forall_await (λ p, is_add p = false)).
  - rewrite handleUpdateTodo_unfold. cbv zeta. cbn [fst snd].
    rewrite IH; [done| |done]. by apply (Forall_await (λ p, is_add p = false)).
  - unfold settle. destruct (inflight a !! n) as [p|] eqn:Hp.
    + assert (Hrest : Forall (λ p, is_add p = false) (delete n (inflight a)))
        by by apply Forall_delete.
      eapply Forall_lookup_1 in Hin; [|exact Hp].
      destruct p as [st tmp text|o id|o id|o id text]; try discriminate;
        unfold bind, lift_env.
      * rewrite todoApi_toggleTodo. cbn [fst snd handleToggleTodo_settled ret].
        by rewrite IH.
      * rewrite todoApi_deleteTodo. cbn [fst snd handleDeleteTodo_settled ret].
        by rewrite IH.
      * rewrite todoApi_updateTodo. cbn [fst snd handleUpdateTodo_settled ret].
        by rewrite IH.
    + unfold ret. cbn [fst snd]. by rewrite IH.
Qed.

End app_facts.

(** ** The add form *)

Section form_facts.
Context {RT : Runtime}.

(** The validation precedes every use of [onSubmit], whatever it is. *)
Lemma handleSubmit_blank {T} (onSubmit : string → T → M (Completion unit * T)) f t w :
  String_trim (input f) = EmptyString →
  handleSubmit onSubmit f t w
  = ((mkForm (input f) (Some "Please enter a todo"), t), w).
Proof. unfold handleSubmit. by intros ->. Qed.

(** C9.  Submitting an input that trims to the empty string shows the
    validation message "Please enter a todo" and does nothing else: the
    store, the calls in flight and the whole world (storage, listener
    invocations, clock) are what they were, and the input is kept. *)
Theorem blank_submit_is_rejected f a w :
  String_trim (input f) = EmptyString →
  let '((f', a'), w') := submit f a w in
  error f' = Some "Please enter a todo"
  ∧ input f' = input f
  ∧ todoStore a' = todoStore a
  ∧ inflight a' = inflight a
  ∧ a' = a
  ∧ w' = w.
Proof. intros Hblank. unfold submit. by rewrite handleSubmit_blank. Qed.

End form_facts.

(** * Further properties of the code *)

(** ** store/todoStore.js *)

Section more_store_facts.
Context {RT : Runtime}.

Lemma times_called_updateTodos l arr s w :
  times_called l (calls_since w (updateTodos arr s w).2)
  = if decide (l ∈ listeners s) then 1 else 0.
Proof.
  rewrite (calls_since_app w _ (elements (listeners s)))
    by apply updateTodos_calls.
  case_decide.
  - apply times_called_once; [apply NoDup_elements|by apply elem_of_elements].
  - apply times_called_not_in. by rewrite elem_of_elements.
Qed.

(** X1.  The listeners are a set: a listener subscribed twice is told of a
    write once, and calling one of the two functions [subscribe] returned
    ends both subscriptions. *)
Theorem one_unsubscribe_ends_every_subscription l s arr w :
  times_called l
    (calls_since w (updateTodos arr (subscribe l (subscribe l s)) w).2) = 1
  ∧ times_called l
      (calls_since w
         (updateTodos arr (unsubscribe l (subscribe l (subscribe l s))) w).2) = 0.
Proof.
  rewrite !times_called_updateTodos. split; case_decide as Hl; try done.
  - exfalso. apply Hl. unfold subscribe. simpl.
    rewrite !elem_of_union, elem_of_singleton. by left.
  - exfalso. revert Hl. unfold unsubscribe. simpl.
    rewrite elem_of_difference, elem_of_singleton. by intros [_ Hne].
Qed.

Lemma createTodoStore_world w :
  (createTodoStore w).2 = with_next_ref (Pos.succ (Pos.succ (next_ref w))) w.
Proof.
  unfold createTodoStore, bind, localStorage_getItem, new_array. simpl.
  destruct (getItem_throws w) eqn:Hget; simpl.
  - unfold with_next_ref. simpl. by rewrite Hget.
  - destruct (localStorage w !! "todos") as [[|c stored]|]; simpl;
      try (unfold with_next_ref; simpl; by rewrite Hget).
    destruct (JSON_parse (String c stored)); unfold with_next_ref; simpl;
      by rewrite Hget.
Qed.

(** X2.  Creating a store only reads: whatever [localStorage] holds or
    throws, it is left as it was (text that does not parse stays under the
    key until the first write), nothing is logged, no listener is called,
    and the new store has no listeners. *)
Theorem createTodoStore_only_reads w :
  localStorage (createTodoStore w).2 = localStorage w
  ∧ env (createTodoStore w).2 = env w
  ∧ calls (createTodoStore w).2 = calls w
  ∧ listeners (createTodoStore w).1 = ∅.
Proof.
  rewrite createTodoStore_world, createTodoStore_listeners. by repeat split.
Qed.

(** X3.  When [setItem] throws, the write is lost for the next visit: the
    store in memory holds the new list, while a store created afterwards
    starts from whatever was stored before the write. *)
Theorem failed_write_is_lost_on_reload x s w :
  setItem_throws w = true →
  getSnapshot (updateTodos x s w).1 = x
  ∧ elems (getSnapshot (createTodoStore (updateTodos x s w).2).1)
    = elems (getSnapshot (createTodoStore w).1).
Proof.
  intros Hset. split; [by rewrite updateTodos_unfold|].
  rewrite !createTodoStore_elems, localStorage_updateTodos, Hset.
  rewrite updateTodos_unfold. simpl. by rewrite Hset.
Qed.

(** X4.  Of two writes in a row the later one is what a store created
    afterwards loads, when storage works and JSON reads back the later
    list. *)
Theorem last_write_is_loaded x y s w :
  setItem_throws w = false → getItem_throws w = false →
  json_faithful (elems y) →
  let s1 := (updateTodos x s w).1 in
  let w1 := (updateTodos x s w).2 in
  getSnapshot (updateTodos y s1 w1).1 = y
  ∧ elems (getSnapshot (createTodoStore (updateTodos y s1 w1).2).1) = elems y.
Proof.
  intros Hset Hget [Hne Hparse]. cbv zeta. split; [by rewrite updateTodos_unfold|].
  rewrite createTodoStore_elems, localStorage_updateTodos.
  assert (Hset1 : setItem_throws (updateTodos x s w).2 = false).
  { rewrite updateTodos_unfold. simpl. by rewrite Hset. }
  assert (Hget1 : getItem_throws (updateTodos y (updateTodos x s w).1 (updateTodos x s w).2).2 = false).
  { rewrite !updateTodos_unfold. simpl. rewrite Hset. simpl. by rewrite Hset. }
  rewrite Hset1, Hget1, lookup_insert_eq.
  destruct (String.eqb_spec (JSON_stringify (elems y)) EmptyString); [done|].
  by rewrite Hparse.
Qed.

Lemma listeners_store_op l op s w :
  mentions l op = false →
  (l ∈ listeners (store_op op s w).1 ↔ l ∈ listeners s).
Proof.
  destruct op as [l'|l'| |arr]; simpl; intros Hop; try done.
  - apply bool_decide_eq_false in Hop.
    rewrite elem_of_union, elem_of_singleton.
    split; [intros [Heq|Hin]; [by subst|done]|by right].
  - apply bool_decide_eq_false in Hop.
    rewrite elem_of_difference, elem_of_singleton.
    split; [by intros [Hin _]|]. intros Hin. split; [done|]. by intros ->.
  - by rewrite updateTodos_unfold.
Qed.

Lemma store_ops_count l ops : ∀ s w,
  Forall (λ op, mentions l op = false) ops →
  ∃ cs, calls (store_ops ops s w).2 = calls w ++ cs
        ∧ times_called l cs = if decide (l ∈ listeners s) then writes ops else 0.
Proof.
  induction ops as [|op ops IH]; intros s w Hops.
  - exists []. simpl. rewrite app_nil_r. split; [done|]. by case_decide.
  - apply Forall_cons in Hops as [Hop Hops]. rewrite store_ops_cons.
    destruct (IH (store_op op s w).1 (store_op op s w).2 Hops) as (cs & Hcs & Hcount).
    pose proof (listeners_store_op l op s w Hop) as Hsame.
    assert (Hif : ∀ n : nat,
              (if decide (l ∈ listeners (store_op op s w).1) then n else 0)
              = (if decide (l ∈ listeners s) then n else 0)).
    { intros n. repeat case_decide; tauto. }
    rewrite Hif in Hcount. clear Hif Hsame.
    destruct op as [l'|l'| |arr]; simpl in *.
    + exists cs. by split.
    + exists cs. by split.
    + exists cs. by split.
    + exists (elements (listeners s) ++ cs).
      rewrite Hcs, updateTodos_calls, <- app_assoc. split; [done|].
      rewrite times_called_app, Hcount. unfold writes. simpl.
      case_decide as Hl.
      * rewrite times_called_once;
          [done|apply NoDup_elements|by apply elem_of_elements].
      * rewrite times_called_not_in; [done|by rewrite elem_of_elements].
Qed.

(** X5.  A listener that stays subscribed is called exactly as many times
    as there are writes, whatever else is done to the store in between
    (snapshots, other listeners coming and going); one that is not
    subscribed is never called. *)
Theorem calls_count_the_writes l ops s w :
  Forall (λ op, mentions l op = false) ops →
  times_called l (calls_since w (store_ops ops s w).2)
  = if decide (l ∈ listeners s) then writes ops else 0.
Proof.
  intros Hops. destruct (store_ops_count l ops s w Hops) as (cs & Hcs & Hcount).
  by rewrite (calls_since_app _ _ _ Hcs).
Qed.

End more_store_facts.

(** ** App.jsx: the handlers on lists *)

Section more_app_facts.
Context {RT : Runtime}.

Lemma toggle_completed_twice id t :
  toggle_completed id (toggle_completed id t) = t.
Proof.
  unfold toggle_completed. destruct (String.eqb (todo_id t) id) eqn:Hid; simpl.
  - rewrite Hid. destruct t. simpl. by rewrite negb_involutive.
  - by rewrite Hid.
Qed.

Lemma replace_text_twice id t1 t2 t :
  replace_text id t2 (replace_text id t1 t) = replace_text id t2 t.
Proof.
  unfold replace_text. destruct (String.eqb (todo_id t) id) eqn:Hid; simpl;
    by rewrite Hid.
Qed.

Lemma no_match_eqb id l :
  ¬ has_id id l → Forall (λ t, String.eqb (todo_id t) id = false) l.
Proof.
  unfold has_id. rewrite <- Forall_Exists_neg. intros Hall.
  eapply Forall_impl; [exact Hall|]. intros t Ht. by apply String.eqb_neq.
Qed.

Lemma map_unmatched (f : Todo → Todo) id l :
  (∀ t, String.eqb (todo_id t) id = false → f t = t) →
  ¬ has_id id l → map f l = l.
Proof.
  intros Hf Hno. apply no_match_eqb in Hno.
  induction Hno as [|t l Ht Hl IH]; simpl; [done|]. by rewrite Hf, IH.
Qed.

Lemma filter_unmatched id l :
  ¬ has_id id l → List.filter (id_differs id) l = l.
Proof.
  intros Hno. apply no_match_eqb in Hno.
  induction Hno as [|t l Ht Hl IH]; simpl; [done|].
  unfold id_differs at 1. rewrite Ht. simpl. by rewrite IH.
Qed.

Lemma dispatch_toggle_elems api k a w :
  elems (getSnapshot (todoStore (dispatch api (EvToggle k) a w).1))
  = map (toggle_completed k) (elems (getSnapshot (todoStore a))).
Proof. unfold dispatch. by rewrite handleToggleTodo_unfold. Qed.

Lemma dispatch_delete_elems api k a w :
  elems (getSnapshot (todoStore (dispatch api (EvDelete k) a w).1))
  = List.filter (id_differs k) (elems (getSnapshot (todoStore a))).
Proof. unfold dispatch. by rewrite handleDeleteTodo_unfold. Qed.

Lemma dispatch_update_elems api k newText a w :
  elems (getSnapshot (todoStore (dispatch api (EvUpdate k newText) a w).1))
  = map (replace_text k newText) (elems (getSnapshot (todoStore a))).
Proof. unfold dispatch. by rewrite handleUpdateTodo_unfold. Qed.

(** X6.  A delete of [k] removes the matching items at once; when its
    remote call is then rejected, the store's list is again deep-equal to
    the list before the delete and the toast reads "Failed to delete
    todo". *)
Theorem delete_failure_restores_snapshot api a w k a1 w1 w1' e e' a2 w2 :
  dispatch api (EvDelete k) a w = (a1, w1) →
  deleteTodo api k (env w1') = (Throw e, e') →
  dispatch api (EvSettle (length (inflight a))) a1 w1' = (a2, w2) →
  elems (getSnapshot (todoStore a1))
    = List.filter (id_differs k) (elems (getSnapshot (todoStore a)))
  ∧ deep_equal (getSnapshot (todoStore a2)) (getSnapshot (todoStore a))
  ∧ toast a2 = Some (mkToast "Failed to delete todo" "error").
Proof.
  unfold dispatch. rewrite handleDeleteTodo_unfold. cbv zeta.
  intros [= <- <-] Hreject Hsettle. split; [done|].
  rewrite settle_last in Hsettle by done. unfold bind in Hsettle.
  rewrite (lift_env_run _ _ _ _ Hreject) in Hsettle.
  unfold handleDeleteTodo_settled, bind in Hsettle.
  rewrite write_store_unfold in Hsettle. unfold ret in Hsettle.
  by injection Hsettle as <- <-.
Qed.

(** X7.  An update of [k] replaces the text at once; when its remote call
    is then rejected, the store's list is again deep-equal to the list
    before the update and the toast reads "Failed to update todo". *)
Theorem update_failure_restores_snapshot api a w k newText a1 w1 w1' e e' a2 w2 :
  dispatch api (EvUpdate k newText) a w = (a1, w1) →
  updateTodo api k newText (env w1') = (Throw e, e') →
  dispatch api (EvSettle (length (inflight a))) a1 w1' = (a2, w2) →
  elems (getSnapshot (todoStore a1))
    = map (replace_text k newText) (elems (getSnapshot (todoStore a)))
  ∧ deep_equal (getSnapshot (todoStore a2)) (getSnapshot (todoStore a))
  ∧ toast a2 = Some (mkToast "Failed to update todo" "error").
Proof.
  unfold dispatch. rewrite handleUpdateTodo_unfold. cbv zeta.
  intros [= <- <-] Hreject Hsettle. split; [done|].
  rewrite settle_last in Hsettle by done. unfold bind in Hsettle.
  rewrite (lift_env_run _ _ _ _ Hreject) in Hsettle.
  unfold handleUpdateTodo_settled, bind in Hsettle.
  rewrite write_store_unfold in Hsettle. unfold ret in Hsettle.
  by injection Hsettle as <- <-.
Qed.

(** X8.  A second toggle of the same id gives back a list deep-equal to
    the one before the first, when the first remote call is still in
    flight or has been fulfilled.  When it has been rejected, the rollback
    has already undone the first toggle, and the second leaves the items
    toggled once. *)
Theorem toggle_twice_restores_list api k a w :
  let before := elems (getSnapshot (todoStore a)) in
  let w1 := (dispatch api (EvToggle k) a w).2 in
  let settled :=
    (run api [EvToggle k; EvSettle (length (inflight a)); EvToggle k] a w).1 in
  elems (getSnapshot (todoStore (run api [EvToggle k; EvToggle k] a w).1))
    = before
  ∧ (rejects api (ReqToggle k) (env w1) = false →
     elems (getSnapshot (todoStore settled)) = before)
  ∧ (rejects api (ReqToggle k) (env w1) = true →
     elems (getSnapshot (todoStore settled)) = map (toggle_completed k) before).
Proof.
  cbv zeta.
  assert (Htwice : ∀ l, map (toggle_completed k) (map (toggle_completed k) l) = l).
  { intros l. rewrite map_map. rewrite <- (map_id l) at 2.
    apply map_ext. intros t. apply toggle_completed_twice. }
  split.
  { rewrite !run_cons. unfold run, ret. cbn [fst].
    by rewrite !dispatch_toggle_elems. }
  rewrite !run_cons. unfold run, ret. cbn [fst].
  rewrite dispatch_toggle_elems.
  unfold rejects, remote_error.
  remember (dispatch api (EvToggle k) a w) as issued eqn:Hissued.
  unfold dispatch in Hissued. rewrite handleToggleTodo_unfold in Hissued.
  cbv zeta in Hissued. subst issued. cbn [fst snd].
  change (dispatch api (EvSettle ?n) ?x ?y) with (settle api n x y).
  rewrite settle_last by done. unfold bind, lift_env.
  destruct (toggleTodo api k _) as [[v|err] e']; cbn [fst snd].
  - split; [intros _|discriminate]. unfold handleToggleTodo_settled, ret.
    cbn [fst snd]. apply Htwice.
  - split; [discriminate|intros _].
    unfold handleToggleTodo_settled, bind. rewrite write_store_unfold. done.
Qed.

(** X9.  Of two updates of the same id the later text is what stays: the
    list is the one the later update alone would give. *)
Theorem later_update_wins api k text1 text2 a w :
  elems (getSnapshot (todoStore
           (run api [EvUpdate k text1; EvUpdate k text2] a w).1))
  = elems (getSnapshot (todoStore (run api [EvUpdate k text2] a w).1)).
Proof.
  rewrite !run_cons. unfold run, ret. cbn [fst].
  rewrite !dispatch_update_elems, map_map.
  apply map_ext. intros t. apply replace_text_twice.
Qed.

Lemma calls_with_next_ref arr s r w :
  calls (updateTodos arr s (with_next_ref r w)).2
  = calls w ++ elements (listeners s).
Proof. by rewrite updateTodos_calls. Qed.

(** Issuing a toggle, delete or update writes the store once. *)
Lemma issue_calls api r a w :
  is_add_request r = false →
  calls (dispatch api (issue r) a w).2
  = calls w ++ elements (listeners (todoStore a))
  ∧ length (inflight (dispatch api (issue r) a w).1) = S (length (inflight a)).
Proof.
  destruct r as [text|id|id|id newText]; [discriminate|..]; intros _;
    unfold issue, dispatch.
  - rewrite handleToggleTodo_unfold. cbv zeta. cbn [fst snd].
    rewrite calls_with_next_ref. split; [done|].
    simpl. rewrite length_app. simpl. lia.
  - rewrite handleDeleteTodo_unfold. cbv zeta. cbn [fst snd].
    rewrite calls_with_next_ref. split; [done|].
    simpl. rewrite length_app. simpl. lia.
  - rewrite handleUpdateTodo_unfold. cbv zeta. cbn [fst snd].
    rewrite calls_with_next_ref. split; [done|].
    simpl. rewrite length_app. simpl. lia.
Qed.

Lemma times_called_listeners l (s : Store) :
  times_called l (elements (listeners s))
  = if decide (l ∈ listeners s) then 1 else 0.
Proof.
  case_decide.
  - apply times_called_once; [apply NoDup_elements|by apply elem_of_elements].
  - apply times_called_not_in. by rewrite elem_of_elements.
Qed.

(** X10.  A toggle, delete or update of an id no item has leaves the list
    deep-equal to what it was -- yet the store is written (every listener
    is called), and a remote call is issued all the same. *)
Theorem unknown_id_changes_nothing_but_is_sent api k newText a w :
  ¬ has_id k (elems (getSnapshot (todoStore a))) →
  Forall (λ r,
    elems (getSnapshot (todoStore (dispatch api (issue r) a w).1))
      = elems (getSnapshot (todoStore a))
    ∧ (∀ l, l ∈ listeners (todoStore a) →
            times_called l (calls_since w (dispatch api (issue r) a w).2) = 1)
    ∧ length (inflight (dispatch api (issue r) a w).1) = S (length (inflight a)))
  [ReqToggle k; ReqDelete k; ReqUpdate k newText].
Proof.
  intros Hno.
  assert (Hnotified : ∀ r, is_add_request r = false →
    (∀ l, l ∈ listeners (todoStore a) →
          times_called l (calls_since w (dispatch api (issue r) a w).2) = 1)
    ∧ length (inflight (dispatch api (issue r) a w).1) = S (length (inflight a))).
  { intros r Hr. destruct (issue_calls api r a w Hr) as [Hcalls Hflight].
    split; [|done]. intros l Hl.
    rewrite (calls_since_app _ _ _ Hcalls), times_called_listeners.
    by case_decide. }
  repeat constructor; try (by apply Hnotified).
  - unfold issue. rewrite dispatch_toggle_elems. apply (map_unmatched _ k); [|done].
    intros t Ht. unfold toggle_completed. by rewrite Ht.
  - unfold issue. rewrite dispatch_delete_elems. by apply filter_unmatched.
  - unfold issue. rewrite dispatch_update_elems. apply (map_unmatched _ k); [|done].
    intros t Ht. unfold replace_text. by rewrite Ht.
Qed.

(** X11.  After a delete of [k] the list is exactly the list before without
    the items whose id is [k]: none of those is left, and every other item
    is kept, as many times as it occurred and in its place among the
    others. *)
Theorem delete_removes_every_match api k a w :
  let before := elems (getSnapshot (todoStore a)) in
  let after := elems (getSnapshot (todoStore (dispatch api (EvDelete k) a w).1)) in
  after = List.filter (λ t, negb (String.eqb (todo_id t) k)) before
  ∧ ¬ has_id k after
  ∧ sublist after before
  ∧ length before
    = length after + length (List.filter (λ t, String.eqb (todo_id t) k) before).
Proof.
  cbv zeta. rewrite dispatch_delete_elems.
  set (l := elems (getSnapshot (todoStore a))). clearbody l.
  split; [done|]. split; [|split].
  - unfold has_id. rewrite Exists_exists. intros (t & Ht & Hid).
    apply list_elem_of_In, filter_In in Ht as [_ Hne].
    unfold id_differs in Hne. apply negb_true_iff, String.eqb_neq in Hne. done.
  - induction l as [|t l IH]; simpl; [constructor|].
    destruct (id_differs k t); [by apply sublist_skip|by apply sublist_cons].
  - induction l as [|t l IH]; simpl; [done|]. unfold id_differs at 1.
    destruct (String.eqb (todo_id t) k); simpl; lia.
Qed.

(** X12.  Toggle and update change no id, no [createdAt] and not the
    number or order of items; toggle changes no text, update no
    [completed] flag. *)
Theorem toggle_and_update_keep_the_rest api k newText a w :
  let before := elems (getSnapshot (todoStore a)) in
  let toggled := elems (getSnapshot (todoStore (dispatch api (EvToggle k) a w).1)) in
  let updated :=
    elems (getSnapshot (todoStore (dispatch api (EvUpdate k newText) a w).1)) in
  (map todo_id toggled = map todo_id before
   ∧ map todo_text toggled = map todo_text before
   ∧ map todo_createdAt toggled = map todo_createdAt before)
  ∧ (map todo_id updated = map todo_id before
     ∧ map todo_completed updated = map todo_completed before
     ∧ map todo_createdAt updated = map todo_createdAt before).
Proof.
  cbv zeta. rewrite dispatch_toggle_elems, dispatch_update_elems.
  rewrite !map_map.
  repeat split; apply map_ext; intros t;
    unfold toggle_completed, replace_text;
    by destruct (String.eqb (todo_id t) k).
Qed.

(** X14.  When an add is confirmed, the list written is the list of the
    render that issued the add with the confirmed item appended, whatever
    the store holds by then: the confirmed item is last, is not completed,
    has the submitted text and a durable id, and the call is no longer in
    flight. *)
Theorem confirmed_add_appends_to_its_render n a w storedTodos tempTodo text :
  inflight a !! n = Some (AddPending storedTodos tempTodo text) →
  let a' := (settle todoApi n a w).1 in
  let newTodo := confirmed_item text (clock (env w)) in
  elems (getSnapshot (todoStore a')) = elems storedTodos ++ [newTodo]
  ∧ speculative newTodo = false
  ∧ toast a' = Some (mkToast "Todo added successfully" "success")
  ∧ inflight a' = delete n (inflight a).
Proof.
  intros Hp. cbv zeta. unfold settle. rewrite Hp.
  unfold bind, lift_env. rewrite todoApi_addTodo.
  unfold handleAddTodo_settled, bind, new_array.
  rewrite write_store_unfold. unfold ret. cbn [fst snd].
  repeat split; try done.
  eapply (todoApi_confirms_durable text (env w)). by rewrite todoApi_addTodo.
Qed.

Lemma setItem_throws_updateTodos arr s w :
  setItem_throws (updateTodos arr s w).2 = setItem_throws w.
Proof.
  rewrite updateTodos_unfold. cbn [snd].
  by destruct (setItem_throws w) eqn:Hset.
Qed.

Lemma in_sync_write arr a w :
  setItem_throws w = false →
  in_sync (write_store arr a w).1 (write_store arr a w).2
  ∧ setItem_throws (write_store arr a w).2 = false.
Proof.
  intros Hset. rewrite write_store_unfold. cbn [fst snd]. unfold in_sync.
  rewrite localStorage_updateTodos, setItem_throws_updateTodos, Hset.
  by rewrite lookup_insert_eq.
Qed.

Lemma dispatch_syncs_or_skips api ev a w :
  setItem_throws w = false →
  setItem_throws (dispatch api ev a w).2 = false
  ∧ (in_sync (dispatch api ev a w).1 (dispatch api ev a w).2
     ∨ untouched a w (dispatch api ev a w).1 (dispatch api ev a w).2).
Proof.
  intros Hset.
  destruct ev as [text|id|id|id newText|confirmed|n]; unfold dispatch.
  - rewrite handleAddTodo_unfold. split; [done|by right].
  - rewrite handleToggleTodo_unfold. cbv zeta. cbn [fst snd]. unfold in_sync.
    rewrite localStorage_updateTodos, setItem_throws_updateTodos. simpl.
    rewrite Hset, lookup_insert_eq. split; [done|by left].
  - rewrite handleDeleteTodo_unfold. cbv zeta. cbn [fst snd]. unfold in_sync.
    rewrite localStorage_updateTodos, setItem_throws_updateTodos. simpl.
    rewrite Hset, lookup_insert_eq. split; [done|by left].
  - rewrite handleUpdateTodo_unfold. cbv zeta. cbn [fst snd]. unfold in_sync.
    rewrite localStorage_updateTodos, setItem_throws_updateTodos. simpl.
    rewrite Hset, lookup_insert_eq. split; [done|by left].
  - unfold handleClearAll. destruct confirmed; [|split; [done|by right]].
    unfold bind, new_array, ret.
    match goal with
    | |- context [write_store ?arr ?a0 ?w0] =>
        destruct (in_sync_write arr a0 w0 Hset) as [Hs Hf];
        destruct (write_store arr a0 w0) as [a' w'] eqn:Hws
    end.
    split; [done|by left].
  - unfold settle. destruct (inflight a !! n) as [p|]; [|split; [done|by right]].
    destruct p as [st tmp text|o id|o id|o id text]; unfold bind, lift_env.
    + destruct (addTodo api text (env w)) as [[t|err] e'];
        [|split; [done|by right]].
      unfold handleAddTodo_settled, bind, new_array, ret.
      match goal with
      | |- context [write_store ?arr ?a0 ?w0] =>
          destruct (in_sync_write arr a0 w0 Hset) as [Hs Hf];
          destruct (write_store arr a0 w0) as [a' w'] eqn:Hws
      end.
      split; [done|by left].
    + destruct (toggleTodo api id (env w)) as [[t|err] e'];
        [split; [done|by right]|].
      unfold handleToggleTodo_settled, bind, ret.
      match goal with
      | |- context [write_store ?arr ?a0 ?w0] =>
          destruct (in_sync_write arr a0 w0 Hset) as [Hs Hf];
          destruct (write_store arr a0 w0) as [a' w'] eqn:Hws
      end.
      split; [done|by left].
    + destruct (deleteTodo api id (env w)) as [[t|err] e'];
        [split; [done|by right]|].
      unfold handleDeleteTodo_settled, bind, ret.
      match goal with
      | |- context [write_store ?arr ?a0 ?w0] =>
          destruct (in_sync_write arr a0 w0 Hset) as [Hs Hf];
          destruct (write_store arr a0 w0) as [a' w'] eqn:Hws
      end.
      split; [done|by left].
    + destruct (updateTodo api id text (env w)) as [[t|err] e'];
        [split; [done|by right]|].
      unfold handleUpdateTodo_settled, bind, ret.
      match goal with
      | |- context [write_store ?arr ?a0 ?w0] =>
          destruct (in_sync_write arr a0 w0 Hset) as [Hs Hf];
          destruct (write_store arr a0 w0) as [a' w'] eqn:Hws
      end.
      split; [done|by left].
Qed.

Lemma run_syncs_or_skips api a w evs : ∀ a1 w1,
  setItem_throws w1 = false →
  in_sync a1 w1 ∨ untouched a w a1 w1 →
  in_sync (run api evs a1 w1).1 (run api evs a1 w1).2
  ∨ untouched a w (run api evs a1 w1).1 (run api evs a1 w1).2.
Proof.
  induction evs as [|ev evs IH]; intros a1 w1 Hset Hstart; [done|].
  rewrite run_cons.
  destruct (dispatch_syncs_or_skips api ev a1 w1 Hset) as [Hset' Hstep].
  apply IH; [done|].
  destruct Hstep as [Hsync|[Hstore Hstorage]]; [by left|].
  destruct Hstart as [Hsync|[Hstore1 Hstorage1]].
  - left. unfold in_sync in *. by rewrite Hstorage, Hstore.
  - right. split; [by rewrite Hstore|by rewrite Hstorage].
Qed.

(** X15.  While [setItem] does not throw, after every event either nothing
    has been written since the start (the store and storage are as they
    were) or durable storage holds the serialisation of the list in
    memory -- the optimistic list before the remote call has confirmed it,
    the restored list after a rollback.  So storage that starts in step
    with memory stays in step. *)
Theorem storage_follows_the_store api evs a w :
  setItem_throws w = false →
  let a' := (run api evs a w).1 in
  let w' := (run api evs a w).2 in
  (in_sync a' w' ∨ untouched a w a' w')
  ∧ (in_sync a w → in_sync a' w').
Proof.
  intros Hset. cbv zeta.
  assert (Hany : in_sync (run api evs a w).1 (run api evs a w).2
                 ∨ untouched a w (run api evs a w).1 (run api evs a w).2).
  { apply run_syncs_or_skips; [done|]. by right. }
  split; [done|]. intros Hsync.
  destruct Hany as [?|[Hstore Hstorage]]; [done|].
  unfold in_sync in *. by rewrite Hstorage, Hstore.
Qed.

Lemma calls_write_store arr a w :
  calls (write_store arr a w).2 = calls w ++ elements (listeners (todoStore a)).
Proof. rewrite write_store_unfold. apply updateTodos_calls. Qed.

Lemma calls_since_none w w' : calls w' = calls w → calls_since w w' = [].
Proof. intros Hsame. apply calls_since_app. by rewrite app_nil_r. Qed.

(** X16.  How often a subscribed listener is called (and the view
    rendered anew) by one mutation: a toggle, delete or update writes the
    store when it is issued, and once more only if its remote call is
    rejected; an add writes nothing when issued and once when confirmed,
    and a rejected add never writes. *)
Theorem store_writes_per_mutation api r a w l :
  l ∈ listeners (todoStore a) →
  let a1 := (dispatch api (issue r) a w).1 in
  let w1 := (dispatch api (issue r) a w).2 in
  let w2 := (dispatch api (EvSettle (length (inflight a))) a1 w1).2 in
  times_called l (calls_since w w1) = issue_writes r
  ∧ times_called l (calls_since w1 w2) = settle_writes r (rejects api r (env w1)).
Proof.
  intros Hl. cbv zeta.
  assert (Hone : ∀ s : Store, listeners s = listeners (todoStore a) →
                 times_called l (elements (listeners s)) = 1).
  { intros s Hs. rewrite times_called_listeners, Hs. by case_decide. }
  destruct r as [text|id|id|id newText]; unfold issue, dispatch, rejects;
    cbn [remote_error issue_writes settle_writes is_add_request].
  - rewrite handleAddTodo_unfold. cbn [fst snd].
    split; [by rewrite calls_since_none|].
    rewrite settle_last by done. unfold bind, lift_env.
    destruct (addTodo api text (env w)) as [[t|err] e']; cbn [fst snd].
    + unfold handleAddTodo_settled, bind, new_array, ret.
      match goal with
      | |- context [write_store ?arr ?a0 ?w0] =>
          pose proof (calls_write_store arr a0 w0) as Hcalls;
          destruct (write_store arr a0 w0) as [a' w'] eqn:Hws
      end.
      cbn [fst snd] in *. rewrite (calls_since_app w w' _ Hcalls). by apply Hone.
    + by rewrite calls_since_none.
  - rewrite handleToggleTodo_unfold. cbv zeta. cbn [fst snd].
    split.
    { rewrite (calls_since_app w _ _ (calls_with_next_ref _ _ _ w)). by apply Hone. }
    rewrite settle_last by done. unfold bind, lift_env.
    destruct (toggleTodo api id _) as [[t|err] e']; cbn [fst snd].
    + by rewrite calls_since_none.
    + unfold handleToggleTodo_settled, bind, ret.
      match goal with
      | |- context [write_store ?arr ?a0 ?w0] =>
          pose proof (calls_write_store arr a0 w0) as Hcalls;
          destruct (write_store arr a0 w0) as [a' w'] eqn:Hws
      end.
      cbn [fst snd] in *. erewrite calls_since_app; [|exact Hcalls]. by apply Hone.
  - rewrite handleDeleteTodo_unfold. cbv zeta. cbn [fst snd].
    split.
    { rewrite (calls_since_app w _ _ (calls_with_next_ref _ _ _ w)). by apply Hone. }
    rewrite settle_last by done. unfold bind, lift_env.
    destruct (deleteTodo api id _) as [[t|err] e']; cbn [fst snd].
    + by rewrite calls_since_none.
    + unfold handleDeleteTodo_settled, bind, ret.
      match goal with
      | |- context [write_store ?arr ?a0 ?w0] =>
          pose proof (calls_write_store arr a0 w0) as Hcalls;
          destruct (write_store arr a0 w0) as [a' w'] eqn:Hws
      end.
      cbn [fst snd] in *. erewrite calls_since_app; [|exact Hcalls]. by apply Hone.
  - rewrite handleUpdateTodo_unfold. cbv zeta. cbn [fst snd].
    split.
    { rewrite (calls_since_app w _ _ (calls_with_next_ref _ _ _ w)). by apply Hone. }
    rewrite settle_last by done. unfold bind, lift_env.
    destruct (updateTodo api id newText _) as [[t|err] e']; cbn [fst snd].
    + by rewrite calls_since_none.
    + unfold handleUpdateTodo_settled, bind, ret.
      match goal with
      | |- context [write_store ?arr ?a0 ?w0] =>
          pose proof (calls_write_store arr a0 w0) as Hcalls;
          destruct (write_store arr a0 w0) as [a' w'] eqn:Hws
      end.
      cbn [fst snd] in *. erewrite calls_since_app; [|exact Hcalls]. by apply Hone.
Qed.

(** *** The statistics *)

Lemma filter_split_length {A} (f : A → bool) l :
  length l = length (List.filter f l) + length (List.filter (λ x, negb (f x)) l).
Proof.
  induction l as [|x l IH]; simpl; [done|]. destruct (f x); simpl; lia.
Qed.

(** X17.  The counters under the list add up: every item shown, stored or
    speculative, is counted as completed or as active, never both. *)
Theorem stats_total_is_completed_plus_active a :
  total (stats a) = completed (stats a) + active (stats a).
Proof. unfold stats. simpl. apply filter_split_length. Qed.

Lemma filter_none {A} (f : A → bool) l :
  Forall (λ x, f x = false) l → List.filter f l = [].
Proof. induction 1 as [|x l Hx Hl IH]; simpl; [done|]. by rewrite Hx. Qed.

Lemma overlay_counts a :
  overlay_speculative a →
  length (List.filter speculative (overlay a)) = length (List.filter is_add (inflight a))
  ∧ List.filter todo_completed (overlay a) = [].
Proof.
  unfold overlay_speculative, overlay.
  induction 1 as [|p ps Hp Hps [IH1 IH2]]; [done|].
  destruct p as [st tmp text|o id|o id|o id text]; simpl; try done.
  destruct Hp as [Hspec Hdone]. rewrite Hspec, Hdone. simpl.
  split; [by f_equal|done].
Qed.

Lemma stats_counts a :
  durable (elems (getSnapshot (todoStore a))) → overlay_speculative a →
  optimistic (stats a) = length (List.filter is_add (inflight a))
  ∧ completed (stats a)
    = length (List.filter todo_completed (elems (getSnapshot (todoStore a)))).
Proof.
  intros Hdurable Hoverlay. destruct (overlay_counts a Hoverlay) as [Hspec Hdone].
  unfold stats, optimisticTodos. fold (overlay a). simpl.
  rewrite !List.filter_app, !length_app, Hspec, Hdone.
  rewrite (filter_none speculative) by done. simpl. lia.
Qed.

Lemma overlay_speculative_write arr a w :
  overlay_speculative a → overlay_speculative (write_store arr a w).1.
Proof. by rewrite write_store_unfold. Qed.

Lemma overlay_speculative_dispatch api ev a w :
  overlay_speculative a → overlay_speculative (dispatch api ev a w).1.
Proof.
  intros Hov. destruct ev as [text|id|id|id newText|confirmed|n]; unfold dispatch.
  - rewrite handleAddTodo_unfold. apply Forall_await; [done|].
    split; [apply speculative_temp|done].
  - rewrite handleToggleTodo_unfold. by apply Forall_await.
  - rewrite handleDeleteTodo_unfold. by apply Forall_await.
  - rewrite handleUpdateTodo_unfold. by apply Forall_await.
  - unfold handleClearAll. destruct confirmed; [|done].
    unfold bind, new_array, ret.
    match goal with
    | |- context [write_store ?arr ?a0 ?w0] =>
        pose proof (overlay_speculative_write arr a0 w0 Hov) as Hw;
        destruct (write_store arr a0 w0) as [a' w'] eqn:Hws
    end.
    done.
  - unfold settle. destruct (inflight a !! n) as [p|]; [|done].
    assert (Hrest : overlay_speculative
              (mkApp (todoStore a) (toast a) (delete n (inflight a)) (uncaught a)))
      by by apply Forall_delete.
    destruct p as [st tmp text|o id|o id|o id text]; unfold bind, lift_env.
    + destruct (addTodo api text (env w)) as [[t|err] e']; [|done].
      unfold handleAddTodo_settled, bind, new_array, ret.
      match goal with
      | |- context [write_store ?arr ?a0 ?w0] =>
          pose proof (overlay_speculative_write arr a0 w0 Hrest) as Hw;
          destruct (write_store arr a0 w0) as [a' w'] eqn:Hws
      end.
      done.
    + destruct (toggleTodo api id (env w)) as [[t|err] e']; [done|].
      unfold handleToggleTodo_settled, bind, ret.
      match goal with
      | |- context [write_store ?arr ?a0 ?w0] =>
          pose proof (overlay_speculative_write arr a0 w0 Hrest) as Hw;
          destruct (write_store arr a0 w0) as [a' w'] eqn:Hws
      end.
      done.
    + destruct (deleteTodo api id (env w)) as [[t|err] e']; [done|].
      unfold handleDeleteTodo_settled, bind, ret.
      match goal with
      | |- context [write_store ?arr ?a0 ?w0] =>
          pose proof (overlay_speculative_write arr a0 w0 Hrest) as Hw;
          destruct (write_store arr a0 w0) as [a' w'] eqn:Hws
      end.
      done.
    + destruct (updateTodo api id text (env w)) as [[t|err] e']; [done|].
      unfold handleUpdateTodo_settled, bind, ret.
      match goal with
      | |- context [write_store ?arr ?a0 ?w0] =>
          pose proof (overlay_speculative_write arr a0 w0 Hrest) as Hw;
          destruct (write_store arr a0 w0) as [a' w'] eqn:Hws
      end.
      done.
Qed.

Lemma overlay_speculative_run api evs : ∀ a w,
  overlay_speculative a → overlay_speculative (run api evs a w).1.
Proof.
  induction evs as [|ev evs IH]; intros a w Hov; [done|].
  rewrite run_cons. by apply IH, overlay_speculative_dispatch.
Qed.

(** X18.  In every execution that starts without speculative items and
    with a remote service that confirms durable ids, the "Pending" counter
    is the number of adds in flight, and the "Completed" counter counts
    stored items only (a speculative item is never completed). *)
Theorem pending_counter_counts_adds_in_flight api evs a w :
  (∀ text e t e', addTodo api text e = (Normal t, e') → speculative t = false) →
  no_speculative a w → overlay_speculative a →
  let a' := (run api evs a w).1 in
  optimistic (stats a') = length (List.filter is_add (inflight a'))
  ∧ completed (stats a')
    = length (List.filter todo_completed (elems (getSnapshot (todoStore a')))).
Proof.
  intros Hapi Hinv Hov. cbv zeta. apply stats_counts.
  - by apply (no_speculative_run api Hapi evs a w).
  - by apply overlay_speculative_run.
Qed.

End more_app_facts.

(** ** components/AddTodoForm.jsx *)

Section more_form_facts.
Context {RT : Runtime}.

(** X19.  Submitting an input that does not trim to the empty string
    clears the input and the message and issues one add whose text -- on
    the speculative item and in the remote call -- is the trimmed input;
    the store is not written. *)
Theorem nonblank_submit_issues_trimmed_add f a w :
  String_trim (input f) ≠ EmptyString →
  let text := String_trim (input f) in
  let tempTodo :=
    mkTodo ("temp-" +:+ Number_toString (clock (env w))) text false None in
  submit f a w
  = ((mkForm EmptyString None,
      await (AddPending (getSnapshot (todoStore a)) tempTodo text) a), w).
Proof.
  intros Hne. cbv zeta. unfold submit, handleSubmit.
  apply String.eqb_neq in Hne. rewrite Hne.
  unfold bind at 1. unfold bind at 1. by rewrite handleAddTodo_unfold.
Qed.

(** X20.  The form calls [onSubmit] with the trimmed text; if that call
    throws, the input is put back as it was typed (untrimmed) and the
    error's message is shown under it. *)
Theorem failed_submit_restores_input {T}
    (onSubmit : string → T → M (Completion unit * T)) f t w err t' w' :
  String_trim (input f) ≠ EmptyString →
  onSubmit (String_trim (input f)) t w = ((Throw err, t'), w') →
  handleSubmit onSubmit f t w
  = ((mkForm (input f) (Some (err_message err)), t'), w').
Proof.
  intros Hne Hthrow. unfold handleSubmit.
  apply String.eqb_neq in Hne. rewrite Hne. unfold bind. by rewrite Hthrow.
Qed.

End more_form_facts.

(** ** components/TodoItem.jsx *)

Section item_facts.
Context {RT : Runtime}.
Variable todo : Todo.

Lemma TodoItem_events_cons isPending ev evs st :
  TodoItem_events todo ((isPending, ev) :: evs) st
  = ((TodoItem_events todo evs (TodoItem_event todo isPending ev st).1).1,
     (TodoItem_event todo isPending ev st).2
     ++ (TodoItem_events todo evs (TodoItem_event todo isPending ev st).1).2).
Proof.
  simpl. destruct (TodoItem_event todo isPending ev st) as [st1 calls1].
  simpl. by destruct (TodoItem_events todo evs st1) as [st2 calls2].
Qed.

Lemma optimistic_event_is_ignored isPending ev st :
  isOptimistic todo = true → isEditing st = false →
  TodoItem_event todo isPending ev st = (st, []).
Proof.
  intros Hopt Hclosed.
  destruct ev as [| | | |value|key| |]; simpl; rewrite ?Hopt, ?Hclosed; simpl;
    try done; by rewrite orb_true_r.
Qed.

(** X21.  A speculative item cannot be acted on: whatever the user does to
    it, in whatever order, its editor never opens and none of [onToggle],
    [onDelete], [onUpdate] is called. *)
Theorem speculative_item_is_inert evs :
  isOptimistic todo = true →
  TodoItem_events todo evs (TodoItem_init todo) = (TodoItem_init todo, []).
Proof.
  intros Hopt. induction evs as [|[isPending ev] evs IH]; [done|].
  rewrite TodoItem_events_cons, optimistic_event_is_ignored by done.
  simpl. by rewrite IH.
Qed.

Lemma TodoItem_event_calls isPending ev st :
  Forall (λ c, call_id c = todo_id todo
               ∧ ∀ text, call_text c = Some text → String_trim text ≠ EmptyString)
         (TodoItem_event todo isPending ev st).2.
Proof.
  assert (Hsave : Forall (λ c, call_id c = todo_id todo
               ∧ ∀ text, call_text c = Some text → String_trim text ≠ EmptyString)
         (handleSave todo st).2).
  { unfold handleSave.
    destruct (String.eqb_spec (String_trim (editText st)) EmptyString); simpl;
      [constructor|].
    apply Forall_singleton. split; [done|]. by intros text [= <-]. }
  destruct ev as [| | | |value|key| |]; simpl;
    repeat (match goal with
            | |- context [if ?b then _ else _] => destruct b
            end; simpl);
    try destruct key; simpl;
    try done; try constructor; try done; try constructor.
Qed.

(** X22.  Every call an item makes is about its own id, and an update it
    sends never carries a text that trims to the empty string. *)
Theorem item_calls_its_own_id evs : ∀ st,
  Forall (λ c, call_id c = todo_id todo
               ∧ ∀ text, call_text c = Some text → String_trim text ≠ EmptyString)
         (TodoItem_events todo evs st).2.
Proof.
  induction evs as [|[isPending ev] evs IH]; intros st; [constructor|].
  rewrite TodoItem_events_cons. simpl. apply Forall_app. split; [|apply IH].
  apply TodoItem_event_calls.
Qed.

(** X23.  With the editor open on a text that is not blank, Enter sends
    the text exactly as typed (not trimmed) and closes the editor, also
    while a transition is pending; the Save button does the same, but
    nothing while a transition is pending. *)
Theorem save_sends_the_text_as_typed st isPending :
  isEditing st = true →
  String_trim (editText st) ≠ EmptyString →
  let saved := (mkItem false (editText st),
                [CallUpdate (todo_id todo) (editText st)]) in
  TodoItem_event todo isPending (KeyDownEditInput Enter) st = saved
  ∧ TodoItem_event todo false ClickSave st = saved
  ∧ TodoItem_event todo true ClickSave st = (st, []).
Proof.
  intros Hopen Hne. apply String.eqb_neq in Hne. simpl.
  unfold handleSave. by rewrite Hopen, Hne.
Qed.

(** X24.  Saving a text that trims to the empty string does nothing: no
    call is made and the editor stays open with the text as typed. *)
Theorem blank_save_keeps_the_editor_open st isPending :
  isEditing st = true →
  String_trim (editText st) = EmptyString →
  TodoItem_event todo isPending (KeyDownEditInput Enter) st = (st, [])
  ∧ TodoItem_event todo isPending ClickSave st = (st, []).
Proof.
  intros Hopen Hblank. simpl. unfold handleSave.
  rewrite Hopen, Hblank. simpl. by destruct isPending.
Qed.

Lemma typing_keeps_editor_open values : ∀ text,
  ∃ text',
    TodoItem_events todo (map (λ v, (false, ChangeEditInput v)) values)
      (mkItem true text)
    = (mkItem true text', []).
Proof.
  induction values as [|v values IH]; intros text; [by eexists|].
  destruct (IH v) as [text' Htext'].
  exists text'. simpl map. rewrite TodoItem_events_cons. simpl. by rewrite Htext'.
Qed.

(** X25.  Opening the editor on a stored item, typing anything and
    pressing Escape is a round trip: no call is made, the editor is closed
    and shows the item's text again the next time. *)
Theorem edit_then_escape_is_a_round_trip values :
  isOptimistic todo = false →
  TodoItem_events todo
    ([(false, ClickEdit)] ++ map (λ v, (false, ChangeEditInput v)) values
     ++ [(false, KeyDownEditInput Escape)])
    (TodoItem_init todo)
  = (TodoItem_init todo, []).
Proof.
  intros Hstored. simpl app. rewrite TodoItem_events_cons. simpl.
  rewrite Hstored. simpl.
  assert (Happ : ∀ evs1 evs2 st,
    TodoItem_events todo (evs1 ++ evs2) st
    = ((TodoItem_events todo evs2 (TodoItem_events todo evs1 st).1).1,
       (TodoItem_events todo evs1 st).2
       ++ (TodoItem_events todo evs2 (TodoItem_events todo evs1 st).1).2)).
  { induction evs1 as [|[p ev] evs1 IH]; intros evs2 st.
    - simpl. by destruct (TodoItem_events todo evs2 st).
    - simpl. destruct (TodoItem_event todo p ev st) as [st1 calls1].
      rewrite IH. destruct (TodoItem_events todo evs1 st1) as [st2 calls2].
      simpl. by rewrite app_assoc. }
  destruct (typing_keeps_editor_open values (todo_text todo)) as [text' Htyped].
  rewrite Happ. unfold TodoItem_init. simpl. by rewrite Htyped.
Qed.

End item_facts.

(** ** components/NetworkStatus.jsx *)

Lemma registered_add type type' callback other win :
  registered type other (addEventListener type' callback win)
  ↔ registered type other win ∨ (type = type' ∧ other = callback).
Proof.
  unfold registered, addEventListener. simpl.
  destruct (decide (type' = type)) as [->|Hne].
  - rewrite lookup_insert_eq. simpl. rewrite elem_of_union, elem_of_singleton.
    split; [intros [->|?]; [by right|by left]|].
    intros [?|[_ ->]]; [by right|by left].
  - rewrite lookup_insert_ne by done. split; [by left|].
    intros [?|[-> _]]; done.
Qed.

Lemma registered_remove type type' callback other win :
  registered type other (removeEventListener type' callback win)
  ↔ registered type other win ∧ ¬ (type = type' ∧ other = callback).
Proof.
  unfold registered, removeEventListener. simpl.
  destruct (decide (type' = type)) as [->|Hne].
  - rewrite lookup_insert_eq. simpl. rewrite elem_of_difference, elem_of_singleton.
    split; [intros [? Hne]; split; [done|]; by intros [_ ->]|].
    intros [? Hne]. split; [done|]. intros ->. by apply Hne.
  - rewrite lookup_insert_ne by done. split; [|by intros [? _]].
    intros ?. split; [done|]. by intros [-> _].
Qed.

(** X26.  [NetworkStatus] registers its callback for "online" and for
    "offline" and for nothing else, and its cleanup removes exactly these
    two registrations: every other registration, of another callback or
    of the same callback for another event, is as it was before.  While
    subscribed the callback is called once per change of the connection,
    after the cleanup never; the snapshot is the connection's current
    state. *)
Theorem NetworkStatus_cleanup_unregisters callback win online :
  let win1 := NetworkStatus_subscribe callback win in
  let win2 := NetworkStatus_cleanup callback win1 in
  let own type other :=
    other = callback ∧ (type = "online" ∨ type = "offline") in
  (∀ type other,
     registered type other win1 ↔ registered type other win ∨ own type other)
  ∧ (∀ type other,
       registered type other win2 ↔ registered type other win ∧ ¬ own type other)
  ∧ times_called callback
      (drop (length (invoked win1)) (invoked (connection_changes online win1))) = 1
  ∧ times_called callback
      (drop (length (invoked win2)) (invoked (connection_changes online win2))) = 0
  ∧ NetworkStatus_getSnapshot (connection_changes online win1) = online.
Proof.
  cbv zeta. unfold NetworkStatus_subscribe, NetworkStatus_cleanup.
  assert (Hsub : ∀ type other,
    registered type other
      (addEventListener "offline" callback (addEventListener "online" callback win))
    ↔ registered type other win
      ∨ (other = callback ∧ (type = "online" ∨ type = "offline"))).
  { intros type other. rewrite !registered_add. tauto. }
  assert (Hclean : ∀ type other,
    registered type other
      (removeEventListener "offline" callback
         (removeEventListener "online" callback
            (addEventListener "offline" callback
               (addEventListener "online" callback win))))
    ↔ registered type other win
      ∧ ¬ (other = callback ∧ (type = "online" ∨ type = "offline"))).
  { intros type other. rewrite !registered_remove, !registered_add. tauto. }
  split; [exact Hsub|]. split; [exact Hclean|].
  split; [|split; [|done]].
  - unfold connection_changes. cbn [invoked].
    rewrite drop_app_length.
    apply times_called_once; [apply NoDup_elements|]. apply elem_of_elements.
    apply (Hsub (if online then "online" else "offline") callback).
    right. split; [done|]. destruct online; [by left|by right].
  - unfold connection_changes. cbn [invoked].
    rewrite drop_app_length.
    apply times_called_not_in. rewrite elem_of_elements.
    intros Hreg.
    apply (Hclean (if online then "online" else "offline") callback) in Hreg
      as [_ Hnot].
    apply Hnot. split; [done|]. destruct online; [by left|by right].
Qed.

(** * The properties on concrete executions *)

Module Examples.
Import Scenario.
#[local] Existing Instance Reference.runtime.

Lemma flaky_confirms_durable bad text e t e' :
  addTodo (flaky bad) text e = (Normal t, e') → speculative t = false.
Proof.
  unfold flaky. cbn [addTodo].
  destruct (bad text); [discriminate|apply todoApi_confirms_durable].
Qed.

Lemma mounted_no_speculative : no_speculative a0 w0.
Proof.
  repeat split.
  - by repeat constructor.
  - constructor.
  - intros stored Hstored. exists [item "1" "a"]. split; [|by repeat constructor].
    vm_compute in Hstored. by injection Hstored as <-.
Qed.

(** The scenarios of the specification that succeed. *)
Example add_buy_milk_to_empty_list :
  elems (getSnapshot (todoStore
    (run todoApi [EvAdd "buy milk"; EvSettle 0] (mount world0).1 (mount world0).2).1))
  = [mkTodo "1730000001500" "buy milk" false (Some "2024-10-27T03:33:21.500Z")].
Proof. by vm_compute. Qed.

Example delete_first_of_two :
  elems (getSnapshot (todoStore
    (run todoApi [EvDelete "1"; EvSettle 0]
       (mounted [item "1" "a"; item "2" "b"] world0).1
       (mounted [item "1" "a"; item "2" "b"] world0).2).1))
  = [item "2" "b"].
Proof. by vm_compute. Qed.

(** C4, on the code.  An add is issued, then a toggle of item "1" while the
    add is in flight; both remote calls are fulfilled, the toggle's first.
    The add's continuation appends the confirmed item to the list of the
    render that issued it and writes that: the store ends with item "1"
    not completed, where the transformations in call order give it
    completed. *)
Theorem add_in_flight_discards_later_toggle :
  let confirmed :=
    mkTodo "1730000002300" "b" false (Some "2024-10-27T03:33:22.300Z") in
  let a :=
    (run todoApi [EvAdd "b"; EvToggle "1"; EvSettle 1; EvSettle 0] a0 w0).1 in
  inflight a = []
  ∧ is_error (toast a) = false
  ∧ elems (getSnapshot (todoStore a)) = [mkTodo "1" "a" false None; confirmed]
  ∧ transform_all [MAdd confirmed; MToggle "1"] (elems (getSnapshot (todoStore a0)))
    = [mkTodo "1" "a" true None; confirmed].
Proof. vm_compute. by repeat split. Qed.

(** C1 on the scenario of the specification: list [{id:"1", text:"a"}],
    [toggle("1")] rejected. *)
Lemma toggle_failure_restores_snapshot_witness :
  let a1 := (dispatch offline (EvToggle "1") a0 w0).1 in
  let w1 := (dispatch offline (EvToggle "1") a0 w0).2 in
  let a2 := (dispatch offline (EvSettle 0) a1 w1).1 in
  toggleTodo offline "1" (env w1)
    = (Throw (mkError "Network down"), mkEnv 1730000000800 [])
  ∧ elems (getSnapshot (todoStore a1)) = [mkTodo "1" "a" true None]
  ∧ elems (getSnapshot (todoStore a2)) = [mkTodo "1" "a" false None]
  ∧ toast a2 = Some (mkToast "Failed to toggle todo" "error").
Proof.
  cbv zeta. split; [by vm_compute|].
  refine (toggle_failure_restores_snapshot offline a0 w0 "1"
            (dispatch offline (EvToggle "1") a0 w0).1
            (dispatch offline (EvToggle "1") a0 w0).2
            (dispatch offline (EvToggle "1") a0 w0).2
            (mkError "Network down") (mkEnv 1730000000800 [])
            (dispatch offline (EvSettle 0)
               (dispatch offline (EvToggle "1") a0 w0).1
               (dispatch offline (EvToggle "1") a0 w0).2).1
            (dispatch offline (EvSettle 0)
               (dispatch offline (EvToggle "1") a0 w0).1
               (dispatch offline (EvToggle "1") a0 w0).2).2
            _ _ _).
  - apply surjective_pairing.
  - by vm_compute.
  - apply surjective_pairing.
Defined.

(** C2 fails for toggle: the remote call is rejected with "Network down"
    and the toast says "Failed to toggle todo". *)
Lemma toggle_toast_ignores_error_message :
  ¬ shows_error_message offline (ReqToggle "1") a0 w0.
Proof.
  intros Hclaim. specialize (Hclaim (mkError "Network down") eq_refl).
  vm_compute in Hclaim. discriminate.
Qed.

(** C3: an add of "buy milk" that is confirmed, and an add of "offline"
    that is rejected, over the mounted list. *)
Lemma speculative_items_never_stored_witness :
  let a1 := (dispatch rejects_offline (EvAdd "offline") a0 w0).1 in
  let w1 := (dispatch rejects_offline (EvAdd "offline") a0 w0).2 in
  let a2 := (dispatch rejects_offline (EvSettle 0) a1 w1).1 in
  let w2 := (dispatch rejects_offline (EvSettle 0) a1 w1).2 in
  no_speculative a0 w0
  ∧ addTodo rejects_offline "offline" (env w1)
    = (Throw (mkError "Network down"), mkEnv 1730000001500 [])
  ∧ no_speculative
      (run rejects_offline [EvAdd "buy milk"; EvSettle 0] a0 w0).1
      (run rejects_offline [EvAdd "buy milk"; EvSettle 0] a0 w0).2
  ∧ todoStore a2 = todoStore a0
  ∧ localStorage w2 = localStorage w0
  ∧ durable (elems (getSnapshot
       (todoStore (run rejects_offline [EvToggle "1"; EvSettle 0] a2 w2).1))).
Proof.
  cbv zeta.
  pose proof (speculative_items_never_stored rejects_offline
                (flaky_confirms_durable _) a0 w0 mounted_no_speculative)
    as [Hruns Hadd].
  split; [exact mounted_no_speculative|].
  split; [by vm_compute|].
  split; [apply Hruns|].
  specialize (Hadd "offline" _ _ (mkError "Network down") (mkEnv 1730000001500 [])
                _ _ (surjective_pairing _) eq_refl (surjective_pairing _))
    as (_ & _ & Hstore & Hstorage & _ & Hlater).
  split; [exact Hstore|]. split; [exact Hstorage|]. apply Hlater.
Defined.

(** C5 fails when the write throws and reads work: storage keeps the older
    list, and that is what a store created afterwards holds -- neither the
    list written nor the empty list. *)
Lemma failed_write_reloads_the_older_list :
  ¬ reloads_written_or_empty (mkArray 9 [item "1" "a"]) (createTodoStore full).1 full.
Proof.
  intros [Hwritten|Hempty].
  - vm_compute in Hwritten. discriminate.
  - vm_compute in Hempty. discriminate.
Qed.

(** C5: a list whose text needs escaping is read back by a fresh store; a
    store created over unparsable text starts empty. *)
Lemma persistence_round_trip_witness :
  let x := mkArray 9 [item "1" "a"; quoted] in
  (setItem_throws w0 = false ∧ getItem_throws w0 = false ∧ json_faithful (elems x))
  ∧ deep_equal (getSnapshot (createTodoStore (updateTodos x (todoStore a0) w0).2).1) x
  ∧ (∃ stored, localStorage corrupt !! "todos" = Some stored
               ∧ JSON_parse stored = None)
  ∧ elems (getSnapshot (createTodoStore corrupt).1) = [].
Proof.
  cbv zeta.
  destruct (persistence_round_trip (mkArray 9 [item "1" "a"; quoted])
              (todoStore a0) w0) as [Hround Hempty].
  assert (Hfaithful : json_faithful [item "1" "a"; quoted])
    by (split; [by vm_compute|by vm_compute]).
  assert (Hcorrupt : ∃ stored, localStorage corrupt !! "todos" = Some stored
                               ∧ JSON_parse stored = None)
    by (exists "[{oops"; split; by vm_compute).
  split; [by repeat split|].
  split; [by apply Hround|].
  split; [exact Hcorrupt|].
  apply Hempty. right. right. exact Hcorrupt.
Defined.

(** C7: listener 1 unsubscribes; two writes and a subscription of listener
    2 follow. *)
Lemma unsubscribed_listener_never_called_witness :
  let ops := [OpUpdateTodos (mkArray 9 []); OpSubscribe 2%positive;
              OpUpdateTodos (mkArray 10 [item "2" "b"])] in
  Forall (λ op, resubscribes 1%positive op = false) ops
  ∧ times_called 1%positive
      (calls_since w0 (store_ops ops (unsubscribe 1%positive (todoStore a0)) w0).2) = 0
  ∧ times_called 2%positive
      (calls_since w0 (store_ops ops (unsubscribe 1%positive (todoStore a0)) w0).2) = 1.
Proof.
  cbv zeta.
  assert (Hops : Forall (λ op, resubscribes 1%positive op = false)
                   [OpUpdateTodos (mkArray 9 []); OpSubscribe 2%positive;
                    OpUpdateTodos (mkArray 10 [item "2" "b"])])
    by (repeat constructor).
  split; [exact Hops|].
  split; [exact (unsubscribed_listener_never_called _ _ (todoStore a0) w0 Hops)|].
  by vm_compute.
Defined.

(** C8: snapshots around a subscription and an unsubscription. *)
Lemma getSnapshot_referentially_stable_witness :
  let ops := [OpGetSnapshot; OpSubscribe 2%positive; OpUnsubscribe 1%positive;
              OpGetSnapshot] in
  Forall (λ op, is_write op = false) ops
  ∧ same_reference (getSnapshot (store_ops ops (todoStore a0) w0).1)
                   (getSnapshot (todoStore a0))
  ∧ getSnapshot (store_ops ops (todoStore a0) w0).1 = getSnapshot (todoStore a0).
Proof.
  cbv zeta.
  assert (Hops : Forall (λ op, is_write op = false)
                   [OpGetSnapshot; OpSubscribe 2%positive;
                    OpUnsubscribe 1%positive; OpGetSnapshot])
    by (repeat constructor).
  split; [exact Hops|].
  exact (getSnapshot_referentially_stable _ (todoStore a0) w0 Hops).
Defined.

(** C9: three blanks are submitted. *)
Lemma blank_submit_is_rejected_witness :
  let f := mkForm "   " None in
  String_trim (input f) = EmptyString
  ∧ (submit f a0 w0).1.1 = mkForm "   " (Some "Please enter a todo")
  ∧ (submit f a0 w0).1.2 = a0
  ∧ (submit f a0 w0).2 = w0.
Proof.
  cbv zeta.
  pose proof (blank_submit_is_rejected (mkForm "   " None) a0 w0 eq_refl) as Hsubmit.
  destruct (submit (mkForm "   " None) a0 w0) as [[f' a'] w'].
  destruct Hsubmit as (Herror & Hinput & _ & _ & -> & ->).
  split; [done|]. destruct f' as [i err]. simpl in *. by subst.
Defined.

End Examples.

Module MoreExamples.
Import Scenario.
#[local] Existing Instance Reference.runtime.

(** X3: the storage is full; the list written is in memory and the old
    list is what a reload finds. *)
Lemma failed_write_is_lost_on_reload_witness :
  let x := mkArray 9 [item "1" "a"] in
  let s := (createTodoStore full).1 in
  setItem_throws full = true
  ∧ getSnapshot (updateTodos x s full).1 = x
  ∧ elems (getSnapshot (createTodoStore (updateTodos x s full).2).1)
    = [item "9" "old"].
Proof.
  cbv zeta. split; [done|].
  destruct (failed_write_is_lost_on_reload (mkArray 9 [item "1" "a"])
              (createTodoStore full).1 full eq_refl) as [Hmem Hreload].
  split; [exact Hmem|]. rewrite Hreload. by vm_compute.
Defined.

(** X4: two writes, then a reload. *)
Lemma last_write_is_loaded_witness :
  let x := mkArray 9 [item "1" "a"] in
  let y := mkArray 10 [item "1" "a"; quoted] in
  let s := todoStore a0 in
  (setItem_throws w0 = false ∧ getItem_throws w0 = false ∧ json_faithful (elems y))
  ∧ elems (getSnapshot
       (createTodoStore
          (updateTodos y (updateTodos x s w0).1 (updateTodos x s w0).2).2).1)
    = [item "1" "a"; quoted].
Proof.
  cbv zeta.
  assert (Hfaithful : json_faithful [item "1" "a"; quoted])
    by (split; by vm_compute).
  split; [by repeat split|].
  exact (proj2 (last_write_is_loaded (mkArray 9 [item "1" "a"])
                  (mkArray 10 [item "1" "a"; quoted]) (todoStore a0) w0
                  eq_refl eq_refl Hfaithful)).
Defined.

(** X5: listener 1 stays subscribed through two writes while listener 2
    comes and goes. *)
Lemma calls_count_the_writes_witness :
  let ops := [OpSubscribe 2%positive; OpUpdateTodos (mkArray 9 []); OpGetSnapshot;
              OpUnsubscribe 2%positive; OpUpdateTodos (mkArray 10 [item "2" "b"])] in
  Forall (λ op, mentions 1%positive op = false) ops
  ∧ times_called 1%positive (calls_since w0 (store_ops ops (todoStore a0) w0).2) = 2.
Proof.
  cbv zeta.
  assert (Hops : Forall (λ op, mentions 1%positive op = false)
            [OpSubscribe 2%positive; OpUpdateTodos (mkArray 9 []); OpGetSnapshot;
             OpUnsubscribe 2%positive; OpUpdateTodos (mkArray 10 [item "2" "b"])])
    by (repeat constructor).
  split; [exact Hops|].
  rewrite (calls_count_the_writes 1%positive _ (todoStore a0) w0 Hops).
  by vm_compute.
Defined.

(** X6: the list of two, [delete("1")] rejected. *)
Lemma delete_failure_restores_snapshot_witness :
  let a := (mounted [item "1" "a"; item "2" "b"] world0).1 in
  let w := (mounted [item "1" "a"; item "2" "b"] world0).2 in
  let a1 := (dispatch offline (EvDelete "1") a w).1 in
  let w1 := (dispatch offline (EvDelete "1") a w).2 in
  let a2 := (dispatch offline (EvSettle 0) a1 w1).1 in
  deleteTodo offline "1" (env w1)
    = (Throw (mkError "Network down"), mkEnv 1730000001000 [])
  ∧ elems (getSnapshot (todoStore a1)) = [item "2" "b"]
  ∧ elems (getSnapshot (todoStore a2)) = [item "1" "a"; item "2" "b"]
  ∧ toast a2 = Some (mkToast "Failed to delete todo" "error").
Proof.
  cbv zeta. split; [by vm_compute|].
  refine (delete_failure_restores_snapshot offline
            (mounted [item "1" "a"; item "2" "b"] world0).1
            (mounted [item "1" "a"; item "2" "b"] world0).2 "1"
            _ _ _ (mkError "Network down") (mkEnv 1730000001000 []) _ _
            (surjective_pairing _) _ (surjective_pairing _)).
  by vm_compute.
Defined.

(** X7: [update("1", "z")] rejected. *)
Lemma update_failure_restores_snapshot_witness :
  let a1 := (dispatch offline (EvUpdate "1" "z") a0 w0).1 in
  let w1 := (dispatch offline (EvUpdate "1" "z") a0 w0).2 in
  let a2 := (dispatch offline (EvSettle 0) a1 w1).1 in
  updateTodo offline "1" "z" (env w1)
    = (Throw (mkError "Network down"), mkEnv 1730000001000 [])
  ∧ elems (getSnapshot (todoStore a1)) = [item "1" "z"]
  ∧ elems (getSnapshot (todoStore a2)) = [item "1" "a"]
  ∧ toast a2 = Some (mkToast "Failed to update todo" "error").
Proof.
  cbv zeta. split; [by vm_compute|].
  refine (update_failure_restores_snapshot offline a0 w0 "1" "z"
            _ _ _ (mkError "Network down") (mkEnv 1730000001000 []) _ _
            (surjective_pairing _) _ (surjective_pairing _)).
  by vm_compute.
Defined.

(** X8: item "1" is toggled twice, the first call fulfilled in between; and
    the same with the first call rejected. *)
Lemma toggle_twice_restores_list_witness :
  let twice := [EvToggle "1"; EvSettle 0; EvToggle "1"] in
  (rejects todoApi (ReqToggle "1") (env (dispatch todoApi (EvToggle "1") a0 w0).2)
     = false
   ∧ rejects offline (ReqToggle "1") (env (dispatch offline (EvToggle "1") a0 w0).2)
     = true)
  ∧ elems (getSnapshot (todoStore (run todoApi twice a0 w0).1)) = [item "1" "a"]
  ∧ elems (getSnapshot (todoStore (run offline twice a0 w0).1))
    = [mkTodo "1" "a" true None].
Proof.
  cbv zeta. split; [by split|].
  destruct (toggle_twice_restores_list todoApi "1" a0 w0) as (_ & Hfulfilled & _).
  destruct (toggle_twice_restores_list offline "1" a0 w0) as (_ & _ & Hrejected).
  split; [exact (Hfulfilled eq_refl)|exact (Hrejected eq_refl)].
Defined.

(** X10: no item has id "7". *)
Lemma unknown_id_changes_nothing_but_is_sent_witness :
  ¬ has_id "7" (elems (getSnapshot (todoStore a0)))
  ∧ elems (getSnapshot (todoStore (dispatch todoApi (EvDelete "7") a0 w0).1))
    = [item "1" "a"]
  ∧ length (inflight (dispatch todoApi (EvDelete "7") a0 w0).1) = 1.
Proof.
  assert (Hno : ¬ has_id "7" (elems (getSnapshot (todoStore a0)))).
  { unfold has_id. rewrite Exists_exists. intros (t & Ht & Hid).
    vm_compute in Ht. apply list_elem_of_In in Ht as [<-|[]]. discriminate. }
  split; [exact Hno|].
  pose proof (unknown_id_changes_nothing_but_is_sent todoApi "7" "z" a0 w0 Hno)
    as Hall.
  apply Forall_cons in Hall as [_ Hall].
  apply Forall_cons in Hall as [(Hlist & _ & Hflight) _].
  split; [exact Hlist|exact Hflight].
Defined.

(** X13: item "1" is toggled, the list is cleared, then the toggle is
    rejected: the rollback brings the cleared item back. *)
Lemma rollback_restores_captured_witness :
  let p := TogglePending (mkArray 4 [item "1" "a"]) "1" in
  (inflight cleared !! 0 = Some p
   ∧ elems (getSnapshot (todoStore cleared)) = []
   ∧ remote_error offline (request_of p) (env cleared_world)
     = Some (mkError "Network down"))
  ∧ getSnapshot (todoStore (settle offline 0 cleared cleared_world).1)
    = mkArray 4 [item "1" "a"]
  ∧ is_error (toast (settle offline 0 cleared cleared_world).1) = true.
Proof.
  cbv zeta. split; [by vm_compute|].
  exact (rollback_restores_captured offline 0 cleared cleared_world
           (TogglePending (mkArray 4 [item "1" "a"]) "1")
           (mkError "Network down") eq_refl eq_refl eq_refl).
Defined.

(** X14: an add is issued, the list is cleared, then the add is confirmed:
    the cleared item is back, before the new one. *)
Lemma confirmed_add_appends_to_its_render_witness :
  let p := AddPending (mkArray 3 [item "1" "a"])
             (mkTodo "temp-1730000000000" "b" false None) "b" in
  (inflight cleared_during_add !! 0 = Some p
   ∧ elems (getSnapshot (todoStore cleared_during_add)) = [])
  ∧ elems (getSnapshot
       (todoStore (settle todoApi 0 cleared_during_add cleared_during_add_world).1))
    = [item "1" "a";
       mkTodo "1730000001500" "b" false (Some "2024-10-27T03:33:21.500Z")].
Proof.
  cbv zeta. split; [by vm_compute|].
  destruct (confirmed_add_appends_to_its_render 0 cleared_during_add
              cleared_during_add_world (mkArray 3 [item "1" "a"])
              (mkTodo "temp-1730000000000" "b" false None) "b" eq_refl)
    as (Hlist & _).
  rewrite Hlist. by vm_compute.
Defined.

(** X15: on a first visit nothing is stored while an add is in flight, and
    the confirmed add is stored; over the mounted list a rejected toggle
    leaves the restored list in storage. *)
Lemma storage_follows_the_store_witness :
  let a := (mount world0).1 in
  let w := (mount world0).2 in
  (setItem_throws w = false ∧ setItem_throws w0 = false ∧ in_sync a0 w0)
  ∧ (untouched a w (run todoApi [EvAdd "b"] a w).1 (run todoApi [EvAdd "b"] a w).2
     ∧ localStorage (run todoApi [EvAdd "b"] a w).2 !! "todos" = None)
  ∧ (in_sync (run todoApi [EvAdd "b"; EvSettle 0] a w).1
             (run todoApi [EvAdd "b"; EvSettle 0] a w).2
     ∨ untouched a w (run todoApi [EvAdd "b"; EvSettle 0] a w).1
                     (run todoApi [EvAdd "b"; EvSettle 0] a w).2)
  ∧ in_sync (run offline [EvToggle "1"; EvSettle 0] a0 w0).1
            (run offline [EvToggle "1"; EvSettle 0] a0 w0).2
  ∧ localStorage (run offline [EvToggle "1"; EvSettle 0] a0 w0).2 !! "todos"
    = Some (JSON_stringify [item "1" "a"]).
Proof.
  cbv zeta.
  assert (Hsync : in_sync a0 w0) by by vm_compute.
  split; [by repeat split|].
  split; [split; by vm_compute|].
  split.
  { exact (proj1 (storage_follows_the_store todoApi [EvAdd "b"; EvSettle 0]
                    (mount world0).1 (mount world0).2 eq_refl)). }
  split.
  { exact (proj2 (storage_follows_the_store offline [EvToggle "1"; EvSettle 0]
                    a0 w0 eq_refl) Hsync). }
  by vm_compute.
Defined.

(** X16: listener 1 and a rejected toggle: two calls. *)
Lemma store_writes_per_mutation_witness :
  let a1 := (dispatch offline (EvToggle "1") a0 w0).1 in
  let w1 := (dispatch offline (EvToggle "1") a0 w0).2 in
  let w2 := (dispatch offline (EvSettle 0) a1 w1).2 in
  1%positive ∈ listeners (todoStore a0)
  ∧ times_called 1%positive (calls_since w0 w1) = 1
  ∧ times_called 1%positive (calls_since w1 w2) = 1.
Proof.
  cbv zeta.
  assert (Hl : 1%positive ∈ listeners (todoStore a0)).
  { by vm_compute. }
  split; [exact Hl|].
  exact (store_writes_per_mutation offline (ReqToggle "1") a0 w0 1%positive Hl).
Defined.

(** X18: an add and a toggle in flight over the mounted list. *)
Lemma pending_counter_counts_adds_in_flight_witness :
  let a := (run rejects_offline [EvAdd "buy milk"; EvToggle "1"] a0 w0).1 in
  (no_speculative a0 w0 ∧ overlay_speculative a0)
  ∧ optimistic (stats a) = 1
  ∧ completed (stats a) = 1
  ∧ total (stats a) = 2.
Proof.
  cbv zeta.
  assert (Hoverlay : overlay_speculative a0) by constructor.
  split; [split; [exact Examples.mounted_no_speculative|exact Hoverlay]|].
  destruct (pending_counter_counts_adds_in_flight rejects_offline
              [EvAdd "buy milk"; EvToggle "1"] a0 w0
              (Examples.flaky_confirms_durable _)
              Examples.mounted_no_speculative Hoverlay) as [Hpending Hdone].
  split; [rewrite Hpending; by vm_compute|].
  split; [rewrite Hdone; by vm_compute|by vm_compute].
Defined.

(** X19: "  buy milk " is submitted. *)
Lemma nonblank_submit_issues_trimmed_add_witness :
  let f := mkForm "  buy milk " None in
  String_trim (input f) ≠ EmptyString
  ∧ (submit f a0 w0).1.1 = mkForm EmptyString None
  ∧ inflight (submit f a0 w0).1.2
    = [AddPending (getSnapshot (todoStore a0))
         (mkTodo "temp-1730000000000" "buy milk" false None) "buy milk"]
  ∧ todoStore (submit f a0 w0).1.2 = todoStore a0.
Proof.
  cbv zeta.
  assert (Hne : String_trim (input (mkForm "  buy milk " None)) ≠ EmptyString)
    by (by vm_compute).
  split; [exact Hne|].
  rewrite (nonblank_submit_issues_trimmed_add (mkForm "  buy milk " None) a0 w0 Hne).
  by vm_compute.
Defined.

(** X20: the parent's [onSubmit] throws "boom". *)
Lemma failed_submit_restores_input_witness :
  let f := mkForm " buy milk" (Some "Please enter a todo") in
  String_trim (input f) ≠ EmptyString
  ∧ handleSubmit throwing_onSubmit f tt w0
    = ((mkForm " buy milk" (Some "boom"), tt), w0).
Proof.
  cbv zeta.
  assert (Hne : String_trim (input (mkForm " buy milk" (Some "Please enter a todo")))
                ≠ EmptyString)
    by (by vm_compute).
  split; [exact Hne|].
  exact (failed_submit_restores_input throwing_onSubmit
           (mkForm " buy milk" (Some "Please enter a todo")) tt w0
           (mkError "boom") tt w0 Hne eq_refl).
Defined.

(** X21: everything is tried on a speculative item. *)
Lemma speculative_item_is_inert_witness :
  let todo := mkTodo "temp-1730000000000" "b" false None in
  let evs := [(false, ChangeCheckbox); (false, ClickEdit); (false, DoubleClickText);
              (false, ClickDelete); (true, KeyDownEditInput Enter);
              (false, ClickSave); (false, ChangeEditInput "c")] in
  isOptimistic todo = true
  ∧ TodoItem_events todo evs (TodoItem_init todo) = (mkItem false "b", []).
Proof.
  cbv zeta. split; [done|].
  exact (speculative_item_is_inert (mkTodo "temp-1730000000000" "b" false None)
           _ eq_refl).
Defined.

(** X23: " milk " is in the editor of item "1". *)
Lemma save_sends_the_text_as_typed_witness :
  let st := mkItem true " milk " in
  (isEditing st = true ∧ String_trim (editText st) ≠ EmptyString)
  ∧ TodoItem_event (item "1" "a") true (KeyDownEditInput Enter) st
    = (mkItem false " milk ", [CallUpdate "1" " milk "])
  ∧ TodoItem_event (item "1" "a") true ClickSave st = (st, []).
Proof.
  cbv zeta.
  assert (Hne : String_trim (editText (mkItem true " milk ")) ≠ EmptyString)
    by (by vm_compute).
  split; [by split|].
  destruct (save_sends_the_text_as_typed (item "1" "a") (mkItem true " milk ")
              true eq_refl Hne) as (Henter & _ & Hpending).
  by split.
Defined.

(** X24: three blanks are in the editor. *)
Lemma blank_save_keeps_the_editor_open_witness :
  let st := mkItem true "   " in
  (isEditing st = true ∧ String_trim (editText st) = EmptyString)
  ∧ TodoItem_event (item "1" "a") false (KeyDownEditInput Enter) st = (st, [])
  ∧ TodoItem_event (item "1" "a") false ClickSave st = (st, []).
Proof.
  cbv zeta. split; [by split|].
  exact (blank_save_keeps_the_editor_open (item "1" "a") (mkItem true "   ")
           false eq_refl eq_refl).
Defined.

(** X25: "x", then "xy", then Escape. *)
Lemma edit_then_escape_is_a_round_trip_witness :
  isOptimistic (item "1" "a") = false
  ∧ TodoItem_events (item "1" "a")
      [(false, ClickEdit); (false, ChangeEditInput "x");
       (false, ChangeEditInput "xy"); (false, KeyDownEditInput Escape)]
      (TodoItem_init (item "1" "a"))
    = (mkItem false "a", []).
Proof.
  split; [done|].
  exact (edit_then_escape_is_a_round_trip (item "1" "a") ["x"; "xy"] eq_refl).
Defined.

(** X27: add "b", toggle "1", delete "1", one after the other. *)
Lemma one_at_a_time_in_call_order_witness :
  let rs := [ReqAdd "b"; ReqToggle "1"; ReqDelete "1"] in
  inflight a0 = []
  ∧ elems (getSnapshot (todoStore (run todoApi (one_at_a_time rs) a0 w0).1))
    = [mkTodo "1730000001500" "b" false (Some "2024-10-27T03:33:21.500Z")].
Proof.
  cbv zeta. split; [done|].
  destruct (one_at_a_time_in_call_order
              [ReqAdd "b"; ReqToggle "1"; ReqDelete "1"] a0 w0 eq_refl)
    as [_ Hlist].
  rewrite Hlist. by vm_compute.
Defined.

(** X28: a toggle and an update of item "1" overlap and settle in the
    opposite order. *)
Lemma overlapping_without_add_witness :
  let evs := [EvToggle "1"; EvUpdate "1" "z"; EvSettle 1; EvSettle 0] in
  (Forall (λ p, is_add p = false) (inflight a0)
   ∧ Forall (λ ev, adds_or_clears ev = false) evs)
  ∧ elems (getSnapshot (todoStore (run todoApi evs a0 w0).1))
    = [mkTodo "1" "z" true None].
Proof.
  cbv zeta.
  assert (Hflight : Forall (λ p, is_add p = false) (inflight a0)) by constructor.
  assert (Hevs : Forall (λ ev, adds_or_clears ev = false)
            [EvToggle "1"; EvUpdate "1" "z"; EvSettle 1; EvSettle 0])
    by (repeat constructor).
  split; [by split|].
  rewrite (overlapping_without_add _ a0 w0 Hflight Hevs). by vm_compute.
Defined.

End MoreExamples.
